(** * The s-expression parser of prism ([prism/language/sexp/_parse.cpp])

    A shallow embedding of [sexp_parse] and the properties of its state
    machine.

    Conventions of the embedding.
    - A code point ([Py_UCS4]) is a [Z]; text ([std::wstring], a Python
      [str]) is the list of its code points.
    - The loop counter [int i] is a [nat]; inputs are shorter than 2^31
      code points, so the counter never wraps.
    - [return_stack] (a [std::vector]) is a list kept in reverse: its
      [back()] is the head of the list and its [front()] the last element.
    - A Python exception is the value [error]; [exc_type] and [exc_msg]
      give its class and its message.  The text in the message of line
      472 goes through a null-terminated wide string and through UTF-8:
      it stops before the first U+0000, and the message is lost when it
      holds a code point that is no Unicode scalar value.
    - Reference counting and allocation failures are not modelled. *)

From Stdlib Require Import String Ascii DecimalString DecimalNat.
From Stdlib Require Import ZArith Bool List Lia.
Import ListNotations.
Local Open Scope Z_scope.

(** ** Code points and text *)

Definition Py_UCS4 := Z.
Definition wstring := list Py_UCS4.

Definition c_quote : Py_UCS4 := 34.
Definition c_escape : Py_UCS4 := 92.
Definition c_lpar : Py_UCS4 := 40.
Definition c_rpar : Py_UCS4 := 41.

(** The code points of an ASCII literal of the source. *)
Definition codes (s : string) : wstring :=
  map (fun a => Z.of_N (N_of_ascii a)) (list_ascii_of_string s).

(** [std::wstring::empty]. *)
Definition empty {A : Type} (l : list A) : bool :=
  match l with [] => true | _ :: _ => false end.

(** ** Whitespace classification *)

(** Lines 63-202: the table for the code points below 128. *)
Definition __Py_ascii_whitespace : list Z :=
  [ 0; 0; 0; 0; 0; 0; 0; 0;
    0; 1; 1; 1; 1; 1; 0; 0;
    0; 0; 0; 0; 0; 0; 0; 0;
    0; 0; 0; 0; 1; 1; 1; 1;
    1; 0; 0; 0; 0; 0; 0; 0;
    0; 0; 0; 0; 0; 0; 0; 0;
    0; 0; 0; 0; 0; 0; 0; 0;
    0; 0; 0; 0; 0; 0; 0; 0;
    0; 0; 0; 0; 0; 0; 0; 0;
    0; 0; 0; 0; 0; 0; 0; 0;
    0; 0; 0; 0; 0; 0; 0; 0;
    0; 0; 0; 0; 0; 0; 0; 0;
    0; 0; 0; 0; 0; 0; 0; 0;
    0; 0; 0; 0; 0; 0; 0; 0;
    0; 0; 0; 0; 0; 0; 0; 0;
    0; 0; 0; 0; 0; 0; 0; 0 ].

(** Lines 209-245. *)
Definition _PyUnicode_IsWhitespace (ch : Py_UCS4) : bool :=
  existsb (Z.eqb ch)
    [ 0x0009; 0x000A; 0x000B; 0x000C; 0x000D; 0x001C; 0x001D; 0x001E;
      0x001F; 0x0020; 0x0085; 0x00A0; 0x1680; 0x2000; 0x2001; 0x2002;
      0x2003; 0x2004; 0x2005; 0x2006; 0x2007; 0x2008; 0x2009; 0x200A;
      0x2028; 0x2029; 0x202F; 0x205F; 0x3000 ].

(** Lines 251-252: the macro, read as a truth value. *)
Definition Py_UNICODE_ISSPACE (ch : Py_UCS4) : bool :=
  if ch <? 128
  then negb (nth (Z.to_nat ch) __Py_ascii_whitespace 0 =? 0)
  else _PyUnicode_IsWhitespace ch.

(** ** Nodes, errors and the parser state *)

(** [SexpString] holds the text of an atom, [SexpList] the children of a
    parenthesised group. *)
#[local] Unset Elimination Schemes.
Inductive SexpNode : Type :=
| SexpString (text : wstring)
| SexpList (children : list SexpNode).
#[local] Set Elimination Schemes.

Inductive PyExc : Type := PyExc_AssertionError | PyExc_ValueError.

(** The three [return NULL] exits of [sexp_parse]. *)
Inductive error : Type :=
| QuotedNotEmpty                                   (* line 301 *)
| ExtraCloseParen (i : nat) (wcopy : wstring)      (* lines 467-473 *)
| MalformedSexp (shown : wstring).                 (* lines 516-530 *)

Definition exc_type (e : error) : PyExc :=
  match e with
  | QuotedNotEmpty => PyExc_AssertionError
  | ExtraCloseParen _ _ => PyExc_ValueError
  | MalformedSexp _ => PyExc_ValueError
  end.

(** Line 468, [std::wstring wcopy = copy]: the constructor from a
    [wchar_t*] reads the wide characters before the first null one. *)
Fixpoint wstring_of_pointer (copy : wstring) : wstring :=
  match copy with
  | [] => []
  | c :: rest => if c =? 0 then [] else c :: wstring_of_pointer rest
  end.

(** The code points that have a UTF-8 form which decodes again: the
    Unicode scalar values, that is all code points but the surrogates. *)
Definition scalar_value (c : Py_UCS4) : bool :=
  (0 <=? c) && (c <=? 0x10FFFF) && negb ((0xD800 <=? c) && (c <=? 0xDFFF)).

(** Lines 260-264 and 472-473: the wide string is encoded to UTF-8 and
    [PyErr_SetString] decodes the bytes again.  The text comes back when
    all its code points are scalar values; otherwise there is nothing to
    decode and no message is set. *)
Definition wstring_to_string (wstr : wstring) : option wstring :=
  if forallb scalar_value wstr then Some wstr else None.

(** [error_msg << i]: the decimal digits of the index. *)
Definition decimal (i : nat) : wstring :=
  codes (NilEmpty.string_of_uint (Nat.to_uint i)).

Definition exc_msg (e : error) : wstring :=
  match e with
  | QuotedNotEmpty => codes "quoted is not empty"
  | ExtraCloseParen i wcopy =>
      match wstring_to_string wcopy with
      | Some text =>
          codes "Extra close parenthesis at index " ++ decimal i
            ++ codes " of " ++ text
      | None => []
      end
  | MalformedSexp shown => codes "Malformed sexp: " ++ shown
  end.

(** The local variables of [sexp_parse] that live across iterations. *)
Record state : Type := mkState {
  return_stack : list (list SexpNode);
  quoted : wstring;
  escaped : bool;
  terminal : wstring
}.

Definition set_return_stack (st : state) (rs : list (list SexpNode)) : state :=
  mkState rs (quoted st) (escaped st) (terminal st).
Definition set_quoted (st : state) (q : wstring) : state :=
  mkState (return_stack st) q (escaped st) (terminal st).
Definition set_escaped (st : state) (b : bool) : state :=
  mkState (return_stack st) (quoted st) b (terminal st).
Definition set_terminal (st : state) (t : wstring) : state :=
  mkState (return_stack st) (quoted st) (escaped st) t.

(** Lines 274-283. *)
Definition init : state := mkState [[]] [] false [].

(** [PyList_Append(return_stack.back(), node)]. The vector is never empty
    where the source appends. *)
Definition append_back (rs : list (list SexpNode)) (node : SexpNode)
  : list (list SexpNode) :=
  match rs with
  | [] => []
  | top :: below => (top ++ [node]) :: below
  end.

(** [return_stack.front()]. *)
Definition front (rs : list (list SexpNode)) : list SexpNode := last rs [].

(** ** The loop body *)

(** The cases of the two [switch ((wchar_t)cur_char)] statements; the
    seven letters that only reassign [cur_char] share a constructor. *)
Inductive escape_case : Type :=
| CaseBackslash
| CaseApostrophe
| CaseQuote
| CaseControl (ctl : Py_UCS4)
| CaseDefault.

Definition switch_case (cur_char : Py_UCS4) : escape_case :=
  if cur_char =? 92 then CaseBackslash            (* backslash *)
  else if cur_char =? 39 then CaseApostrophe      (* apostrophe *)
  else if cur_char =? 34 then CaseQuote           (* double quote *)
  else if cur_char =? 98 then CaseControl 8       (* b: backspace *)
  else if cur_char =? 102 then CaseControl 12     (* f: form feed, 014 *)
  else if cur_char =? 116 then CaseControl 9      (* t: tab *)
  else if cur_char =? 110 then CaseControl 10     (* n: newline *)
  else if cur_char =? 114 then CaseControl 13     (* r: carriage return *)
  else if cur_char =? 118 then CaseControl 11     (* v: vertical tab, 013 *)
  else if cur_char =? 97 then CaseControl 7       (* a: bell, 007 *)
  else CaseDefault.

(** Line 344-345: the characters that conclude a terminal. *)
Definition concludes (cur_char : Py_UCS4) : bool :=
  (cur_char =? c_lpar) || (cur_char =? c_rpar) || (cur_char =? c_quote)
  || Py_UNICODE_ISSPACE cur_char.

(** How a block of the loop body ends: [return NULL], [continue], or
    control reaches the next block with the current state and character. *)
Inductive flow : Type :=
| Raise (e : error)
| Continue (st : state)
| Next (st : state) (cur_char : Py_UCS4).

(** Lines 292-363: [if (!terminal.empty()) { ... }]. *)
Definition terminal_block (st : state) (cur_char : Py_UCS4) : flow :=
  if negb (empty (terminal st)) then
    if negb (empty (quoted st)) then Raise QuotedNotEmpty
    else
      let '(cur_char, st) :=
        if escaped st then
          match switch_case cur_char with
          | CaseBackslash => (cur_char, st)
          | CaseApostrophe => (cur_char, st)
          | CaseQuote => (cur_char, st)
          | CaseControl ctl => (ctl, st)
          | CaseDefault => (cur_char, set_terminal st (terminal st ++ [92]))
          end
        else (cur_char, st) in
      if negb (escaped st) && concludes cur_char then
        (* conclude terminal *)
        Next (set_terminal
                (set_return_stack st
                   (append_back (return_stack st) (SexpString (terminal st))))
                [])
             cur_char
      else
        Continue (set_terminal (set_escaped st false)
                    (terminal st ++ [cur_char]))
  else Next st cur_char.

(** Lines 364-421: [if (escaped) { switch ... } else if (cur_char ==
    c_escape) { ... }]. *)
Definition escape_block (st : state) (cur_char : Py_UCS4) : flow :=
  if escaped st then
    match switch_case cur_char with
    | CaseBackslash => Next st cur_char
    | CaseApostrophe => Next st cur_char
    | CaseQuote =>
        if negb (empty (quoted st))
        then Next (set_quoted st (quoted st ++ [92])) cur_char
        else Next st cur_char
    | CaseControl ctl => Next st ctl
    | CaseDefault =>
        if negb (empty (quoted st))
        then Next (set_quoted st (quoted st ++ [92])) cur_char
        else Next (set_terminal st (terminal st ++ [92])) cur_char
    end
  else if cur_char =? c_escape then
    (* Escape the next character *)
    Continue (set_escaped st true)
  else Next st cur_char.

(** Lines 422-501: the quoted literal, the structural characters and the
    start of a token. *)
Definition dispatch_block (sexp_str : wstring) (i : nat)
    (st : state) (cur_char : Py_UCS4) : error + state :=
  if negb (empty (quoted st)) then
    if negb (escaped st) && (cur_char =? c_quote) then
      (* End string literal *)
      let quoted' := quoted st ++ [34] in
      inr (set_quoted
             (set_return_stack st
                (append_back (return_stack st) (SexpString quoted')))
             [])
    else
      inr (set_quoted (set_escaped st false) (quoted st ++ [cur_char]))
  else if negb (escaped st) then
    if Py_UNICODE_ISSPACE cur_char then
      (* consume whitespace *)
      inr st
    else if cur_char =? c_lpar then
      (* Start SexpList *)
      inr (set_return_stack st ([] :: return_stack st))
    else if cur_char =? c_rpar then
      (* End SexpList *)
      match return_stack st with
      | [] => inr st     (* back() of an empty vector: not reached *)
      | children :: popped =>
          if empty popped then
            (* too many close parens *)
            inl (ExtraCloseParen i (wstring_of_pointer sexp_str))
          else
            inr (set_return_stack st
                   (append_back popped (SexpList children)))
      end
    else if cur_char =? c_quote then
      (* Start string literal *)
      inr (set_quoted st [34])
    else
      (* Start a normal token *)
      inr (set_terminal (set_escaped st false) (terminal st ++ [cur_char]))
  else
    (* Start a normal token (with an escaped first character) *)
    inr (set_terminal (set_escaped st false) (terminal st ++ [cur_char])).

(** One iteration of the [for] loop, lines 286-502. *)
Definition step (sexp_str : wstring) (i : nat)
    (st : state) (cur_char : Py_UCS4) : error + state :=
  match terminal_block st cur_char with
  | Raise e => inl e
  | Continue st' => inr st'
  | Next st1 c1 =>
      match escape_block st1 c1 with
      | Raise e => inl e
      | Continue st' => inr st'
      | Next st2 c2 => dispatch_block sexp_str i st2 c2
      end
  end.

(** The [for] loop from index [i] on, over the code points still to read. *)
Fixpoint loop (sexp_str : wstring) (i : nat) (st : state) (rest : wstring)
  : error + state :=
  match rest with
  | [] => inr st
  | cur_char :: rest' =>
      match step sexp_str i st cur_char with
      | inl e => inl e
      | inr st' => loop sexp_str (S i) st' rest'
      end
  end.

(** [PyUnicode_Substring(s, start, end)]. *)
Definition PyUnicode_Substring (s : wstring) (start stop : nat) : wstring :=
  firstn (stop - start) (skipn start s).

(** Lines 503-539: the flush of the pending terminal and the final check. *)
Definition finish (sexp_str : wstring) (st : state)
  : error + list SexpNode :=
  let rs :=
    if negb (empty (terminal st))
    then append_back (return_stack st) (SexpString (terminal st))
    else return_stack st in
  if negb (length rs =? 1)%nat || (length (front rs) =? 0)%nat then
    let do_abbreviate := (100 <? length sexp_str)%nat in
    inl (MalformedSexp
           (if do_abbreviate then PyUnicode_Substring sexp_str 0 72
            else sexp_str))
  else inr (front rs).

(** [sexp_parse]: the value returned is the Python list accumulated at the
    bottom of the stack, the top-level list. *)
Definition sexp_parse (sexp_str : wstring) : error + list SexpNode :=
  match loop sexp_str 0 init sexp_str with
  | inl e => inl e
  | inr st => finish sexp_str st
  end.

(** ** The printer the round trip is stated with *)

(** Modelled from the spec: the serializer of the surrounding package is
    not part of [_parse.cpp].  The parts of a list are joined with single
    spaces. *)
Fixpoint join_spaces (parts : list wstring) : wstring :=
  match parts with
  | [] => []
  | [p] => p
  | p :: ps => p ++ 32 :: join_spaces ps
  end.

(** Modelled from the spec: the serializer of the surrounding package is
    not part of [_parse.cpp].  An atom prints as its text; every list,
    the top-level list [SexpList nodes] of a parse result included, prints
    its children joined with single spaces and wrapped in parentheses. *)
Fixpoint serialize (n : SexpNode) : wstring :=
  match n with
  | SexpString text => text
  | SexpList children =>
      c_lpar :: join_spaces (map serialize children) ++ [c_rpar]
  end.

(** ** Atoms of a tree *)

(** The texts of all [SexpString] nodes of a tree, left to right. *)
Fixpoint atoms (n : SexpNode) : list wstring :=
  match n with
  | SexpString text => [text]
  | SexpList children => flat_map atoms children
  end.

Definition forest_atoms (nodes : list SexpNode) : list wstring :=
  flat_map atoms nodes.

(** The text of a quoted literal: a double quote, a body, a double quote. *)
Definition is_quoted_literal (text : wstring) : bool :=
  match text with
  | c0 :: (_ :: _) as r => (c0 =? c_quote) && (last r 0 =? c_quote)
  | _ => false
  end.

(** The characters the invariant on bare atoms is about: the parentheses
    and whitespace. *)
Definition structural (c : Py_UCS4) : bool :=
  (c =? c_lpar) || (c =? c_rpar) || Py_UNICODE_ISSPACE c.

(** The control characters a recognised escape letter resolves to that
    are whitespace: tab, newline, vertical tab, form feed, carriage
    return. *)
Definition resolved_whitespace (c : Py_UCS4) : bool :=
  existsb (Z.eqb c) [9; 10; 11; 12; 13].

(** What the state machine guarantees of the text of a bare atom: the first
    code point is structural only as a resolved control escape; the second
    is structural only directly after a leading backslash; no later one
    is. *)
Definition bare_ok (text : wstring) : bool :=
  match text with
  | [] => false
  | c0 :: r =>
      (negb (structural c0) || resolved_whitespace c0)
      && match r with
         | [] => true
         | c1 :: r' =>
             ((c0 =? c_escape) || negb (structural c1))
             && forallb (fun c => negb (structural c)) r'
         end
  end.

Definition atom_ok (text : wstring) : bool :=
  is_quoted_literal text || bare_ok text.

(** Every atom of every accumulator on the stack is a quoted literal or
    satisfies [bare_ok], and so does the pending terminal. *)
Definition level_ok (nodes : list SexpNode) : bool :=
  forallb atom_ok (forest_atoms nodes).

Definition atoms_ok (st : state) : bool :=
  forallb level_ok (return_stack st)
  && (empty (terminal st) || bare_ok (terminal st)).

(** Induction on trees, with the hypothesis for every child of a list. *)
Fixpoint SexpNode_ind (P : SexpNode -> Prop)
    (Hstring : forall text, P (SexpString text))
    (Hlist : forall children, Forall P children -> P (SexpList children))
    (n : SexpNode) : P n :=
  match n with
  | SexpString text => Hstring text
  | SexpList children =>
      Hlist children
        ((fix all (l : list SexpNode) : Forall P l :=
            match l with
            | [] => Forall_nil P
            | c :: l' =>
                Forall_cons c (SexpNode_ind P Hstring Hlist c) (all l')
            end) children)
  end.

(** ** Trees of inputs without a backslash *)

(** A code point that neither concludes a terminal nor starts an escape. *)
Definition plain (c : Py_UCS4) : bool :=
  negb (concludes c) && negb (c =? c_escape).

(** A code point inside a quoted literal that neither ends it nor starts
    an escape. *)
Definition inner (c : Py_UCS4) : bool :=
  negb (c =? c_quote) && negb (c =? c_escape).

(** An open or empty quoted-literal buffer without a backslash. *)
Definition quoted_plain (q : wstring) : bool :=
  match q with
  | [] => true
  | c0 :: body => (c0 =? c_quote) && forallb inner body
  end.

Definition is_plain_literal (text : wstring) : bool :=
  match text with
  | [] => false
  | c0 :: r =>
      (c0 =? c_quote) && negb (empty r) && (last r 0 =? c_quote)
      && forallb inner (removelast r)
  end.

(** The atoms a backslash-free input gives: a non-empty run of plain code
    points, or a quoted literal whose body has no quote and no backslash. *)
Definition printable_atom (text : wstring) : bool :=
  (negb (empty text) && forallb plain text) || is_plain_literal text.

Definition level_printable (nodes : list SexpNode) : bool :=
  forallb printable_atom (forest_atoms nodes).

Definition printable_state (st : state) : bool :=
  forallb level_printable (return_stack st)
  && forallb plain (terminal st)
  && negb (escaped st)
  && quoted_plain (quoted st).

(** The state once the pending terminal, if there is one, is concluded
    (lines 347-355). *)
Definition settle (st : state) : state :=
  if empty (terminal st) then st
  else set_terminal
         (set_return_stack st
            (append_back (return_stack st) (SexpString (terminal st))))
         [].

(** Reading [text] from a state with nothing pending appends [nodes] to
    the accumulator on top of the stack, the last of them possibly still
    pending as the terminal. *)
Definition reads (text : wstring) (nodes : list SexpNode) : Prop :=
  forall sexp_str i top below,
  exists st',
    loop sexp_str i (mkState (top :: below) [] false []) text = inr st'
    /\ quoted st' = [] /\ escaped st' = false
    /\ settle st' = mkState ((top ++ nodes) :: below) [] false [].

(** The number that a run of decimal digits stands for, after the number
    [acc] of the digits before it. *)
Fixpoint read_decimal (digits : wstring) (acc : nat) : option nat :=
  match digits with
  | [] => Some acc
  | d :: rest =>
      if (48 <=? d) && (d <=? 57)
      then read_decimal rest (10 * acc + Z.to_nat (d - 48))
      else None
  end.

(** ** Devices for relating runs of the loop *)

(** An error of the loop as it reads when the same code points are read
    as part of the text [w], with [k] more code points in front. *)
Definition shift_error (k : nat) (w : wstring) (e : error) : error :=
  match e with
  | ExtraCloseParen i _ => ExtraCloseParen (k + i) (wstring_of_pointer w)
  | _ => e
  end.

(** The stack [rs] with the nodes [pre] in front of its bottom accumulator
    and the accumulators [extra] below it. *)
Fixpoint frame (pre : list SexpNode) (extra : list (list SexpNode))
    (rs : list (list SexpNode)) : list (list SexpNode) :=
  match rs with
  | [] => []
  | [bottom] => (pre ++ bottom) :: extra
  | top :: below => top :: frame pre extra below
  end.

(** The code points that are no delimiter. *)
Definition atom_chars (s : wstring) : wstring :=
  filter (fun c => negb (concludes c)) s.

(** The text held by a state: the atoms of the stack, bottom accumulator
    first, and the pending terminal. *)
Definition held_text (st : state) : wstring :=
  concat (flat_map forest_atoms (rev (return_stack st))) ++ terminal st.

(** ** Invariants of the state machine *)

Record wf_state (st : state) : Prop := mk_wf {
  wf_stack : return_stack st <> [];
  wf_excl : terminal st = [] \/ quoted st = [];
  wf_esc : escaped st = true -> terminal st = [];
  wf_quoted : quoted st = [] \/ exists body, quoted st = c_quote :: body
}.

(** Case analysis of one iteration: the state is split into its fields and
    every test of the three blocks is decided. *)
Ltac split_tests :=
  repeat match goal with
    | |- context [match switch_case ?c with _ => _ end] =>
        destruct (switch_case c) eqn:?; simpl
    | |- context [if ?b then _ else _] => destruct b eqn:?; simpl
    | |- context [match ?l with [] => _ | _ :: _ => _ end] =>
        destruct l eqn:?; simpl
    end.

Ltac step_cases :=
  unfold step, terminal_block, escape_block, dispatch_block;
  unfold set_terminal, set_quoted, set_escaped, set_return_stack;
  simpl; split_tests.

(** Case analysis of two iterations on a backslash and [c]: every test of
    [c] against a constant is decided; the cases with two different
    constants for [c] are absurd. *)
Ltac escape_table c :=
  unfold step, terminal_block, escape_block, dispatch_block, switch_case;
  simpl;
  repeat match goal with
    | |- context [c =? ?k] => destruct (c =? k) eqn:?; simpl
    end;
  rewrite <- ?app_assoc; simpl;
  try reflexivity;
  exfalso;
  repeat match goal with
    | H : (c =? _) = true |- _ => apply Z.eqb_eq in H
    end;
  congruence.

Lemma init_wf : wf_state init.
Proof.
  constructor; simpl; auto; discriminate.
Qed.

Lemma append_back_nonempty rs node : rs <> [] -> append_back rs node <> [].
Proof.
  destruct rs; simpl; congruence.
Qed.

Lemma step_wf sexp_str i st c st' :
  wf_state st -> step sexp_str i st c = inr st' -> wf_state st'.
Proof.
  intros [Hs He Hx Hq]. destruct st as [rs q e t]. simpl in *.
  destruct rs as [|top below]; [congruence|].
  destruct t as [|t0 t]; destruct q as [|q0 q];
    try (destruct He; discriminate);
    destruct e; try (specialize (Hx eq_refl); discriminate);
    step_cases; intros H; inversion H; subst; clear H;
    constructor; simpl; auto; try discriminate;
    try (destruct Hq as [Hq|[body Hq]]; [discriminate|];
         inversion Hq; subst; right; eauto);
    try (right; eexists; reflexivity);
    apply append_back_nonempty; destruct below; discriminate.
Qed.

Lemma loop_wf sexp_str rest : forall i st st',
  wf_state st -> loop sexp_str i st rest = inr st' -> wf_state st'.
Proof.
  induction rest as [|c rest IH]; simpl; intros i st st' Hwf H.
  - inversion H; subst; assumption.
  - destruct (step sexp_str i st c) as [e|st1] eqn:Hstep; [discriminate|].
    eapply IH; [eapply step_wf; eassumption | eassumption].
Qed.

Lemma loop_app sexp_str pre post : forall i st,
  loop sexp_str i st (pre ++ post) =
  match loop sexp_str i st pre with
  | inl e => inl e
  | inr st' => loop sexp_str (i + length pre) st' post
  end.
Proof.
  induction pre as [|c pre IH]; simpl; intros i st.
  - now rewrite Nat.add_0_r.
  - destruct (step sexp_str i st c) as [e|st1]; [reflexivity|].
    rewrite IH. now rewrite Nat.add_succ_r.
Qed.

(** The loop raises only the two errors of its body. *)
Lemma step_error sexp_str i st c e :
  step sexp_str i st c = inl e ->
  e = QuotedNotEmpty
  \/ e = ExtraCloseParen i (wstring_of_pointer sexp_str).
Proof.
  destruct st as [rs q esc t].
  step_cases; intros H; inversion H; auto.
Qed.

Lemma loop_error sexp_str rest : forall i st e,
  loop sexp_str i st rest = inl e ->
  e = QuotedNotEmpty
  \/ exists j, e = ExtraCloseParen j (wstring_of_pointer sexp_str).
Proof.
  induction rest as [|c rest IH]; simpl; intros i st e H; [discriminate|].
  destruct (step sexp_str i st c) as [e1|st1] eqn:Hstep.
  - inversion H; subst. apply step_error in Hstep. destruct Hstep; eauto.
  - eapply IH; eassumption.
Qed.

(** In a well-formed state the assertion of line 301 does not fire. *)
Lemma step_no_assertion sexp_str i st c :
  wf_state st -> step sexp_str i st c <> inl QuotedNotEmpty.
Proof.
  intros [Hs He Hx Hq]. destruct st as [rs q e t]. simpl in *.
  destruct t as [|t0 t]; destruct q as [|q0 q];
    try (destruct He; discriminate);
    step_cases; discriminate.
Qed.

Lemma loop_no_assertion sexp_str rest : forall i st,
  wf_state st -> loop sexp_str i st rest <> inl QuotedNotEmpty.
Proof.
  induction rest as [|c rest IH]; simpl; intros i st Hwf; [discriminate|].
  destruct (step sexp_str i st c) as [e|st1] eqn:Hstep.
  - intros H; inversion H; subst.
    eapply step_no_assertion; eassumption.
  - apply IH. eapply step_wf; eassumption.
Qed.

Lemma sexp_parse_wf sexp_str pre st :
  loop sexp_str 0 init pre = inr st -> wf_state st.
Proof.
  apply loop_wf, init_wf.
Qed.

(** ** The escape flag and the terminal buffer *)

(** While a terminal is pending, an unescaped backslash takes the [else]
    branch of line 357: it is appended to the terminal and the iteration
    ends at the [continue] of line 361, before the test of line 416. *)
Lemma step_backslash_in_terminal sexp_str i st :
  terminal st <> [] -> quoted st = [] -> escaped st = false ->
  step sexp_str i st c_escape =
  inr (set_terminal (set_escaped st false) (terminal st ++ [c_escape])).
Proof.
  destruct st as [rs q e t]; simpl; intros Ht Hq He; subst.
  destruct t as [|t0 t]; [congruence|]. reflexivity.
Qed.

(** With no terminal pending an unescaped backslash sets the flag and
    appends nothing (lines 416-421). *)
Lemma step_backslash_sets_flag sexp_str i st :
  terminal st = [] -> escaped st = false ->
  step sexp_str i st c_escape = inr (set_escaped st true).
Proof.
  destruct st as [rs q e t]; simpl; intros Ht He; subst. reflexivity.
Qed.

(** C1 (evaluation). On the 8 code points t o k \ n e n d the backslash is
    read while the terminal holds t o k: the flag stays clear, the
    backslash is appended, and the atom that results is the input itself,
    backslash and letter n included; it contains no newline character. *)
Theorem C1_backslash_in_bare_atom_kept :
  let tok_n_end := [116; 111; 107; 92; 110; 101; 110; 100] in
  loop tok_n_end 0 init [116; 111; 107; 92]
    = inr (mkState [[]] [] false [116; 111; 107; 92])
  /\ sexp_parse tok_n_end = inr [SexpString tok_n_end]
  /\ ~ In 10 tok_n_end.
Proof.
  cbv zeta. split; [reflexivity|]. split; [reflexivity|].
  simpl. intros H. repeat (destruct H as [H|H]; [discriminate|]). exact H.
Qed.

(** C10 (evaluation). On the 2 code points a \ the backslash is read while
    the terminal holds a: the flag is not set when the input ends, and the
    atom flushed at the end of the input is a \, with the backslash. *)
Theorem C10_trailing_backslash_kept_in_atom :
  loop [97; 92] 0 init [97; 92] = inr (mkState [[]] [] false [97; 92])
  /\ sexp_parse [97; 92] = inr [SexpString [97; 92]].
Proof.
  split; reflexivity.
Qed.

(** ** Quoted literals *)

(** C2 (as stated, refuted). On the 4 code points a, space, double quote, b
    the literal opened by the quote is still open when the input ends, and
    the parse succeeds with the single atom a. *)
Lemma C2_open_literal_accepted :
  (exists st, loop [97; 32; 34; 98] 0 init [97; 32; 34; 98] = inr st
              /\ quoted st = [34; 98])
  /\ sexp_parse [97; 32; 34; 98] = inr [SexpString [97]].
Proof.
  split; [eexists; split; reflexivity | reflexivity].
Qed.

(** C2 (amended). When a quoted literal is still open at the end of the
    input, its buffer is not flushed: the outcome is that of the same
    state with the buffer cleared, and it is decided by the accumulator
    stack alone.  The parse fails with the malformed-sexp error, after the
    whole pass, when the stack does not hold exactly one list or that list
    is empty; otherwise it returns the top-level elements completed before
    the literal. *)
Theorem C2_open_literal_at_end sexp_str st :
  loop sexp_str 0 init sexp_str = inr st ->
  quoted st <> [] ->
  sexp_parse sexp_str = finish sexp_str (set_quoted st [])
  /\ sexp_parse sexp_str =
     match return_stack st with
     | [top_level] =>
         if empty top_level
         then inl (MalformedSexp
                     (if (100 <? length sexp_str)%nat
                      then firstn 72 sexp_str else sexp_str))
         else inr top_level
     | _ => inl (MalformedSexp
                   (if (100 <? length sexp_str)%nat
                    then firstn 72 sexp_str else sexp_str))
     end.
Proof.
  intros Hloop Hq. pose proof (sexp_parse_wf _ _ _ Hloop) as [Hs He Hx _].
  unfold sexp_parse. rewrite Hloop. split; [reflexivity|].
  destruct He as [Ht|]; [|contradiction].
  unfold finish, PyUnicode_Substring. rewrite Ht. simpl.
  destruct (return_stack st) as [|top [|next below]]; simpl;
    try reflexivity.
  destruct top; reflexivity.
Qed.

(** The amended statement at the input a, space, double quote, b. *)
Lemma C2_open_literal_at_end_witness :
  loop [97; 32; 34; 98] 0 init [97; 32; 34; 98]
    = inr (mkState [[SexpString [97]]] [34; 98] false [])
  /\ sexp_parse [97; 32; 34; 98] = inr [SexpString [97]].
Proof.
  split; [reflexivity|].
  refine (eq_trans (proj2 (C2_open_literal_at_end [97; 32; 34; 98]
            (mkState [[SexpString [97]]] [34; 98] false []) _ _)) _).
  - reflexivity.
  - discriminate.
  - reflexivity.
Defined.

(** A backslash followed by a double quote, read inside an open literal,
    extends the buffer by exactly those two code points. *)
Lemma loop_escaped_quote_in_literal sexp_str i st :
  quoted st <> [] -> terminal st = [] -> escaped st = false ->
  loop sexp_str i st [c_escape; c_quote] =
  inr (set_quoted st (quoted st ++ [c_escape; c_quote])).
Proof.
  destruct st as [rs q e t]; simpl; intros Hq Ht He; subst.
  destruct q as [|q0 q]; [congruence|].
  cbn. now rewrite <- app_assoc.
Qed.

(** C3 (as stated, refuted). The input double quote, a, backslash, double
    quote, b, double quote has 6 code points, not 7, and the parser stores
    all six of them; the 7 code points with the backslash doubled do not
    parse to that atom either. *)
Lemma C3_input_has_six_code_points :
  ~ (length [34; 97; 92; 34; 98; 34] = 7%nat
     /\ sexp_parse [34; 97; 92; 34; 98; 34]
        = inr [SexpString [34; 97; 92; 34; 98; 34]])
  /\ sexp_parse [34; 97; 92; 92; 34; 98; 34]
     <> inr [SexpString [34; 97; 92; 34; 98; 34]].
Proof.
  split.
  - intros [H _]. discriminate H.
  - vm_compute. discriminate.
Qed.

(** C3 (amended). After any prefix of any input: an unescaped double quote
    read while a literal is open emits the atom whose text is the buffer
    followed by that quote, and this text begins and ends with a double
    quote; a backslash and a double quote read inside the literal are
    stored as those two code points.  The 6-code-point input double quote,
    a, backslash, double quote, b, double quote parses to the single atom
    with the same 6 code points. *)
Theorem C3_quoted_literal_text :
  (forall sexp_str pre i st,
      loop sexp_str 0 init pre = inr st ->
      quoted st <> [] -> escaped st = false ->
      (exists body,
          quoted st = c_quote :: body
          /\ step sexp_str i st c_quote =
             inr (set_quoted
                    (set_return_stack st
                       (append_back (return_stack st)
                          (SexpString (c_quote :: body ++ [c_quote]))))
                    []))
      /\ loop sexp_str i st [c_escape; c_quote] =
         inr (set_quoted st (quoted st ++ [c_escape; c_quote])))
  /\ sexp_parse [34; 97; 92; 34; 98; 34]
     = inr [SexpString [34; 97; 92; 34; 98; 34]].
Proof.
  split; [|reflexivity].
  intros sexp_str pre i st Hloop Hq He.
  pose proof (sexp_parse_wf _ _ _ Hloop) as [Hs Hx _ Hb].
  destruct Hx as [Ht|]; [|contradiction].
  destruct Hb as [|[body Hb]]; [contradiction|].
  split.
  - exists body. split; [assumption|].
    destruct st as [rs q e t]; simpl in *; subst. reflexivity.
  - now apply loop_escaped_quote_in_literal.
Qed.

(** The statement at the state reached after double quote, a. *)
Lemma C3_quoted_literal_text_witness :
  loop [34; 97; 34] 0 init [34; 97] = inr (mkState [[]] [34; 97] false [])
  /\ step [34; 97; 34] 2 (mkState [[]] [34; 97] false []) c_quote
     = inr (mkState [[SexpString [34; 97; 34]]] [] false [])
  /\ loop [34; 97; 34] 2 (mkState [[]] [34; 97] false []) [c_escape; c_quote]
     = inr (mkState [[]] [34; 97; 92; 34] false []).
Proof.
  split; [reflexivity|].
  destruct (proj1 C3_quoted_literal_text [34; 97; 34] [34; 97] 2%nat
              (mkState [[]] [34; 97] false []))
    as [[body [Hb Hs]] Hl].
  - reflexivity.
  - discriminate.
  - reflexivity.
  - split.
    + rewrite Hs. simpl in Hb. inversion Hb; subst. reflexivity.
    + exact Hl.
Defined.

(** ** Errors *)

Lemma wstring_of_pointer_no_null s :
  ~ In 0 s -> wstring_of_pointer s = s.
Proof.
  induction s as [|c s IH]; simpl; intros H; [reflexivity|].
  destruct (c =? 0) eqn:E.
  - apply Z.eqb_eq in E. exfalso. apply H. now left.
  - rewrite IH; [reflexivity|]. intros Hin. apply H. now right.
Qed.

Lemma read_decimal_string d : forall acc,
  read_decimal (codes (NilEmpty.string_of_uint d)) acc
  = Some (Nat.of_uint_acc d acc).
Proof.
  induction d as [|d IH|d IH|d IH|d IH|d IH|d IH|d IH|d IH|d IH|d IH];
    intros acc; [reflexivity|..];
    cbn [NilEmpty.string_of_uint Nat.of_uint_acc];
    rewrite Nat.tail_mul_spec;
    unfold codes; cbn [list_ascii_of_string map];
    fold (codes (NilEmpty.string_of_uint d));
    cbn [read_decimal];
    match goal with
    | |- context [Z.of_N (N_of_ascii ?a)] =>
        let v := eval vm_compute in (Z.of_N (N_of_ascii a)) in
        change (Z.of_N (N_of_ascii a)) with v
    end;
    match goal with
    | |- (if ?b then _ else _) = _ =>
        let b' := eval vm_compute in b in change b with b'
    end;
    match goal with
    | |- context [Z.to_nat ?e] =>
        let n := eval vm_compute in (Z.to_nat e) in
        change (Z.to_nat e) with n
    end;
    cbv iota; rewrite IH; f_equal; f_equal; lia.
Qed.

(** The index in the message is the index in decimal digits. *)
Lemma decimal_reads_back i :
  decimal i <> [] /\ read_decimal (decimal i) 0 = Some i.
Proof.
  assert (H : read_decimal (decimal i) 0 = Some i).
  { unfold decimal. rewrite read_decimal_string.
    change (Nat.of_uint_acc (Nat.to_uint i) 0)
      with (Nat.of_uint (Nat.to_uint i)).
    now rewrite DecimalNat.Unsigned.of_to. }
  split; [|exact H]. intros E. rewrite E in H. simpl in H.
  inversion H; subst. discriminate E.
Qed.

(** When a close parenthesis is read while no literal is open, the flag
    is clear and the stack holds only the top-level accumulator, the
    parse fails at once with the error of lines 466-476, whatever
    follows: a ValueError with the index of that code point and the input
    up to its first U+0000.  When the input has no U+0000 and only scalar
    values, the message is the literal text, the index in decimal, the
    word of and the whole input. *)
Lemma unmatched_close_paren pre post st :
  let sexp_str := pre ++ c_rpar :: post in
  loop sexp_str 0 init pre = inr st ->
  quoted st = [] -> escaped st = false ->
  length (return_stack st) = 1%nat ->
  sexp_parse sexp_str
    = inl (ExtraCloseParen (length pre) (wstring_of_pointer sexp_str))
  /\ (~ In 0 sexp_str -> forallb scalar_value sexp_str = true ->
      exc_msg (ExtraCloseParen (length pre) (wstring_of_pointer sexp_str))
      = codes "Extra close parenthesis at index " ++ decimal (length pre)
          ++ codes " of " ++ sexp_str).
Proof.
  intros sexp_str Hloop Hq He Hlen.
  assert (Hstep : step sexp_str (length pre) st c_rpar
                  = inl (ExtraCloseParen (length pre)
                           (wstring_of_pointer sexp_str))).
  { destruct st as [rs q e t]; simpl in *; subst q e.
    destruct rs as [|top [|next below]]; try discriminate.
    destruct t; reflexivity. }
  split.
  - unfold sexp_parse. unfold sexp_str at 2. rewrite loop_app.
    fold sexp_str. rewrite Hloop. simpl. now rewrite Hstep.
  - intros Hnull Hscalar. rewrite (wstring_of_pointer_no_null _ Hnull).
    unfold exc_msg, wstring_to_string. now rewrite Hscalar.
Qed.

(** C4 (evaluation). On the 2 code points U+0000, close parenthesis the
    error is raised at index 1, but its text is empty: the message is
    Extra close parenthesis at index 1 of, followed by a space and
    nothing, not by the input.  On a lone surrogate and a close
    parenthesis no message is set.  On (a)) and a space, and on ten
    letters a and a close parenthesis, which hold no U+0000, the message
    carries the index, 3 and 10, and the whole input. *)
Theorem C4_error_text_stops_at_null :
  sexp_parse [0; 41] = inl (ExtraCloseParen 1 [])
  /\ exc_msg (ExtraCloseParen 1 [])
     = codes "Extra close parenthesis at index 1 of "
  /\ sexp_parse [0xD800; 41] = inl (ExtraCloseParen 1 [0xD800; 41])
  /\ exc_msg (ExtraCloseParen 1 [0xD800; 41]) = []
  /\ sexp_parse (codes "(a)) ") = inl (ExtraCloseParen 3 (codes "(a)) "))
  /\ exc_msg (ExtraCloseParen 3 (codes "(a)) "))
     = codes "Extra close parenthesis at index 3 of (a)) "
  /\ sexp_parse (codes "aaaaaaaaaa)")
     = inl (ExtraCloseParen 10 (codes "aaaaaaaaaa)"))
  /\ exc_msg (ExtraCloseParen 10 (codes "aaaaaaaaaa)"))
     = codes "Extra close parenthesis at index 10 of aaaaaaaaaa)".
Proof.
  repeat split; vm_compute; reflexivity.
Qed.

(** C5. Every malformed-sexp error of [sexp_parse] has the message
    Malformed sexp: followed by the input, which is cut to its first 72
    code points, with nothing added, when the input is longer than 100
    code points, and is whole otherwise. *)
Theorem C5_malformed_message sexp_str shown :
  sexp_parse sexp_str = inl (MalformedSexp shown) ->
  exc_msg (MalformedSexp shown)
    = codes "Malformed sexp: "
        ++ (if (100 <? length sexp_str)%nat
            then firstn 72 sexp_str else sexp_str)
  /\ ((100 < length sexp_str)%nat ->
      shown = firstn 72 sexp_str /\ length shown = 72%nat)
  /\ ((length sexp_str <= 100)%nat -> shown = sexp_str).
Proof.
  unfold sexp_parse. intros H.
  destruct (loop sexp_str 0 init sexp_str) as [e|st] eqn:Hloop.
  - inversion H; subst. apply loop_error in Hloop.
    destruct Hloop as [Hc|[j Hc]]; discriminate.
  - unfold finish, PyUnicode_Substring in H.
    change (skipn 0 sexp_str) with sexp_str in H.
    change (72 - 0)%nat with 72%nat in H.
    assert (Hcut : (100 < length sexp_str)%nat ->
                   length (firstn 72 sexp_str) = 72%nat)
      by (intros; rewrite length_firstn; lia).
    remember (firstn 72 sexp_str) as cut eqn:Ecut.
    match type of H with
    | (if ?b then _ else _) = _ => destruct b; [|discriminate]
    end.
    unfold exc_msg.
    destruct (100 <? length sexp_str)%nat eqn:Hlen;
      injection H as Hshown; subst shown.
    + apply Nat.ltb_lt in Hlen. split; [reflexivity|]. split.
      * intros _. split; [reflexivity|]. now apply Hcut.
      * intros Hle. lia.
    + apply Nat.ltb_ge in Hlen. split; [reflexivity|]. split.
      * intros Hlt. lia.
      * reflexivity.
Qed.

(** The statement at 101 open parentheses: the text shown is the first
    72 of them. *)
Lemma C5_malformed_message_witness :
  sexp_parse (repeat c_lpar 101) = inl (MalformedSexp (repeat c_lpar 72))
  /\ exc_msg (MalformedSexp (repeat c_lpar 72))
     = codes "Malformed sexp: " ++ repeat c_lpar 72.
Proof.
  split; [vm_compute; reflexivity|].
  exact (proj1 (C5_malformed_message (repeat c_lpar 101) (repeat c_lpar 72)
                  (eq_refl : sexp_parse (repeat c_lpar 101)
                             = inl (MalformedSexp (repeat c_lpar 72))))).
Defined.

(** One iteration keeps the two buffers mutually exclusive, from any
    state in which they are. *)
Lemma step_exclusive sexp_str i st c st' :
  terminal st = [] \/ quoted st = [] ->
  step sexp_str i st c = inr st' ->
  terminal st' = [] \/ quoted st' = [].
Proof.
  intros He. destruct st as [rs q e t]. simpl in *.
  destruct t as [|t0 t]; destruct q as [|q0 q];
    try (destruct He; discriminate);
    step_cases; intros H; inversion H; subst; clear H; simpl; auto.
Qed.

Lemma step_exclusive_no_assertion sexp_str i st c :
  terminal st = [] \/ quoted st = [] ->
  step sexp_str i st c <> inl QuotedNotEmpty.
Proof.
  intros He. destruct st as [rs q e t]. simpl in *.
  destruct t as [|t0 t]; destruct q as [|q0 q];
    try (destruct He; discriminate);
    step_cases; discriminate.
Qed.

Lemma finish_error sexp_str st e :
  finish sexp_str st = inl e -> exists shown, e = MalformedSexp shown.
Proof.
  unfold finish.
  match goal with
  | |- (if ?b then _ else _) = _ -> _ => destruct b; [|discriminate]
  end.
  intros H; inversion H; eauto.
Qed.

(** C7. The error of line 301 is an AssertionError, the two others are
    ValueErrors.  Both buffers are empty at the start; every iteration that
    begins with the terminal and the quoted-literal buffer mutually
    exclusive ends with them mutually exclusive and does not raise the
    assertion error; hence after every prefix of every input they are
    mutually exclusive, and every error of [sexp_parse], on every input, is
    a ValueError, never the AssertionError of line 301. *)
Theorem C7_assertion_unreachable :
  exc_type QuotedNotEmpty = PyExc_AssertionError
  /\ (terminal init = [] /\ quoted init = [])
  /\ (forall sexp_str i st c,
      terminal st = [] \/ quoted st = [] ->
      step sexp_str i st c <> inl QuotedNotEmpty
      /\ forall st', step sexp_str i st c = inr st' ->
                     terminal st' = [] \/ quoted st' = [])
  /\ (forall sexp_str pre st,
         loop sexp_str 0 init pre = inr st ->
         terminal st = [] \/ quoted st = [])
  /\ (forall sexp_str e,
         sexp_parse sexp_str = inl e ->
         e <> QuotedNotEmpty /\ exc_type e = PyExc_ValueError).
Proof.
  split; [reflexivity|]. split; [split; reflexivity|]. split; [|split].
  - intros sexp_str i st c He. split.
    + now apply step_exclusive_no_assertion.
    + intros st'. now apply step_exclusive.
  - intros sexp_str pre st Hloop.
    now destruct (sexp_parse_wf _ _ _ Hloop).
  - intros sexp_str e. unfold sexp_parse.
    destruct (loop sexp_str 0 init sexp_str) as [e1|st] eqn:Hloop.
    + intros H; inversion H; subst.
      pose proof (loop_no_assertion sexp_str sexp_str 0 init init_wf) as Hn.
      pose proof (loop_error _ _ _ _ _ Hloop) as [Hq|[j Hj]]; subst e.
      * contradiction.
      * split; [discriminate | reflexivity].
    + intros H. apply finish_error in H. destruct H as [shown ->].
      split; [discriminate | reflexivity].
Qed.

(** The statement at a state with a pending terminal and at the input of
    one close parenthesis. *)
Lemma C7_assertion_unreachable_witness :
  (terminal (mkState [[]] [] false [97]) = []
   \/ quoted (mkState [[]] [] false [97]) = [])
  /\ step [97; 34] 1 (mkState [[]] [] false [97]) c_quote
     <> inl QuotedNotEmpty
  /\ sexp_parse [41] = inl (ExtraCloseParen 0 [41])
  /\ exc_type (ExtraCloseParen 0 [41]) = PyExc_ValueError.
Proof.
  split; [right; reflexivity|]. split; [|split; [reflexivity|]].
  - apply (proj1 (proj2 (proj2 C7_assertion_unreachable)) [97; 34] 1%nat
             (mkState [[]] [] false [97]) c_quote).
    right; reflexivity.
  - apply (proj2 (proj2 (proj2 (proj2 C7_assertion_unreachable))) [41]
             (ExtraCloseParen 0 [41])).
    reflexivity.
Defined.

(** ** The example of a nested list *)

(** C8 (as stated, refuted). The top-level list returned for the input
    (a b (c d) e) is not the four nodes a, b, (c d), e. *)
Lemma C8_top_level_not_four_children :
  sexp_parse (codes "(a b (c d) e)")
  <> inr [ SexpString (codes "a"); SexpString (codes "b");
           SexpList [SexpString (codes "c"); SexpString (codes "d")];
           SexpString (codes "e") ].
Proof.
  vm_compute. discriminate.
Qed.

(** C8 (amended). Parsing (a b (c d) e) returns a top-level list with one
    child, the list that the outer parentheses delimit; that list has the
    4 children atom a, atom b, the list of the atoms c and d, atom e, in
    this order. *)
Theorem C8_nested_list_example :
  sexp_parse (codes "(a b (c d) e)")
  = inr [ SexpList
            [ SexpString (codes "a"); SexpString (codes "b");
              SexpList [SexpString (codes "c"); SexpString (codes "d")];
              SexpString (codes "e") ] ].
Proof.
  reflexivity.
Qed.

(** ** The text of atoms *)

Lemma concludes_structural c : concludes c = false -> structural c = false.
Proof.
  unfold concludes, structural. intros H.
  apply orb_false_iff in H as [H Hs].
  apply orb_false_iff in H as [H _].
  now rewrite H, Hs.
Qed.

Lemma bare_ok_single c : structural c = false -> bare_ok [c] = true.
Proof.
  intros H. simpl. now rewrite H.
Qed.

Lemma bare_ok_snoc text c :
  bare_ok text = true -> structural c = false ->
  bare_ok (text ++ [c]) = true.
Proof.
  intros Ht Hc. destruct text as [|c0 [|c1 r]]; simpl in *.
  - discriminate.
  - rewrite Hc. now rewrite orb_true_r, !andb_true_r in *.
  - rewrite forallb_app. simpl. rewrite Hc. simpl.
    now rewrite !andb_true_r.
Qed.

Lemma switch_case_control c ctl :
  switch_case c = CaseControl ctl -> bare_ok [ctl] = true.
Proof.
  unfold switch_case.
  repeat match goal with
    | |- context [if ?b then _ else _] => destruct b
    end;
    intros H; inversion H; reflexivity.
Qed.

Lemma is_quoted_literal_closed body :
  is_quoted_literal (c_quote :: body ++ [c_quote]) = true.
Proof.
  unfold is_quoted_literal.
  destruct (body ++ [c_quote]) as [|b r] eqn:E.
  - now destruct body.
  - rewrite <- E, last_last. reflexivity.
Qed.

Lemma level_ok_snoc nodes n :
  level_ok (nodes ++ [n]) = level_ok nodes && forallb atom_ok (atoms n).
Proof.
  unfold level_ok, forest_atoms.
  rewrite flat_map_app, forallb_app. simpl. now rewrite app_nil_r.
Qed.

(** *** The invariant on atom texts *)

Lemma switch_case_literal c :
  match switch_case c with
  | CaseBackslash | CaseApostrophe | CaseQuote => bare_ok [c] = true
  | _ => True
  end.
Proof.
  unfold switch_case.
  repeat match goal with
    | |- context [if ?b then _ else _] => destruct b eqn:?
    end; try exact I;
    match goal with
    | H : (c =? _) = true |- _ => apply Z.eqb_eq in H; subst c; reflexivity
    end.
Qed.

Lemma bare_ok_start c :
  Py_UNICODE_ISSPACE c = false -> (c =? c_lpar) = false ->
  (c =? c_rpar) = false -> bare_ok [c] = true.
Proof.
  intros Hs Hl Hr. apply bare_ok_single. unfold structural.
  now rewrite Hs, Hl, Hr.
Qed.

Lemma bare_atom_ok text : bare_ok text = true -> atom_ok text = true.
Proof.
  unfold atom_ok. intros ->. apply orb_true_r.
Qed.

Lemma stack_ok_pop top below :
  empty below = false ->
  level_ok top = true -> forallb level_ok below = true ->
  forallb level_ok (append_back below (SexpList top)) = true.
Proof.
  destruct below as [|next below']; [discriminate|]. simpl.
  intros _ Ht Hb. apply andb_true_iff in Hb as [Hn Hb'].
  rewrite level_ok_snoc, Hn, Hb'. simpl.
  rewrite andb_true_r. exact Ht.
Qed.

#[local] Arguments bare_ok : simpl never.
#[local] Arguments atom_ok : simpl never.
#[local] Arguments level_ok : simpl never.

Lemma step_atoms_ok sexp_str i st c st' :
  wf_state st -> atoms_ok st = true ->
  step sexp_str i st c = inr st' -> atoms_ok st' = true.
Proof.
  intros [Hs He Hx Hq]. destruct st as [rs q e t]. unfold atoms_ok.
  simpl in *. intros Hok.
  destruct rs as [|top below]; [congruence|].
  apply andb_true_iff in Hok as [Hrs Ht]. simpl in Hrs.
  apply andb_true_iff in Hrs as [Htop Hbelow].
  destruct t as [|t0 t]; destruct q as [|q0 q];
    try (destruct He; discriminate);
    destruct e; try (specialize (Hx eq_refl); discriminate);
    step_cases; intros H; inversion H; subst; clear H; simpl;
    rewrite ?level_ok_snoc, ?Htop, ?Hbelow; simpl;
    try reflexivity;
    simpl in Ht; rewrite ?(bare_atom_ok _ Ht); simpl;
    rewrite ?andb_true_r;
    try (apply bare_ok_start; assumption);
    try (eapply switch_case_control; eassumption);
    try match goal with
      | Hc : switch_case c = _ |- bare_ok [c] = true =>
          pose proof (switch_case_literal c) as Hl; rewrite Hc in Hl;
          exact Hl
      | |- forallb level_ok (append_back _ (SexpList _)) = true =>
          apply stack_ok_pop; try assumption;
          rewrite ?level_ok_snoc, ?Htop; simpl;
          rewrite ?(bare_atom_ok _ Ht); reflexivity
      | |- bare_ok (?t0 :: ?t ++ [c]) = true =>
          apply (bare_ok_snoc (t0 :: t) c);
          [assumption | now apply concludes_structural]
      | |- atom_ok (_ :: _ ++ [34]) = true =>
          destruct Hq as [Hq|[body Hq]]; [discriminate|];
          inversion Hq; subst; unfold atom_ok;
          apply orb_true_iff; left; exact (is_quoted_literal_closed body)
      end;
    reflexivity.
Qed.

Lemma loop_atoms_ok sexp_str rest : forall i st st',
  wf_state st -> atoms_ok st = true ->
  loop sexp_str i st rest = inr st' -> atoms_ok st' = true.
Proof.
  induction rest as [|c rest IH]; simpl; intros i st st' Hwf Hok H.
  - inversion H; subst; assumption.
  - destruct (step sexp_str i st c) as [e|st1] eqn:Hstep; [discriminate|].
    eapply IH; [| |eassumption].
    + eapply step_wf; eassumption.
    + eapply step_atoms_ok; eassumption.
Qed.

Lemma finish_atoms_ok sexp_str st nodes :
  atoms_ok st = true -> finish sexp_str st = inr nodes ->
  level_ok nodes = true.
Proof.
  unfold atoms_ok, finish. intros Hok.
  apply andb_true_iff in Hok as [Hrs Ht].
  set (rs := if negb (empty (terminal st)) then _ else _).
  assert (Hrs' : forallb level_ok rs = true).
  { subst rs. destruct (terminal st) as [|t0 t]; simpl; [assumption|].
    destruct (return_stack st) as [|top below]; simpl in *; [reflexivity|].
    apply andb_true_iff in Hrs as [Htop Hb].
    rewrite level_ok_snoc, Htop, Hb. simpl.
    rewrite (bare_atom_ok _ Ht). reflexivity. }
  destruct rs as [|top [|next below]]; simpl; try discriminate.
  change (front [top]) with top.
  destruct (length top =? 0)%nat; [discriminate|].
  intros H; inversion H; subst. simpl in Hrs'.
  now rewrite andb_true_r in Hrs'.
Qed.






(** ** The round trip through the printer *)

(** *** Steps of the state machine on printed text *)

Lemma plain_tests c :
  plain c = true ->
  concludes c = false /\ (c =? c_escape) = false
  /\ (c =? c_lpar) = false /\ (c =? c_rpar) = false
  /\ (c =? c_quote) = false /\ Py_UNICODE_ISSPACE c = false.
Proof.
  unfold plain. intros H. apply andb_true_iff in H as [Hc He].
  apply negb_true_iff in Hc, He. split; [assumption|].
  split; [assumption|]. unfold concludes in Hc.
  apply orb_false_iff in Hc as [Hc Hs].
  apply orb_false_iff in Hc as [Hc Hq].
  apply orb_false_iff in Hc as [Hl Hr]. auto.
Qed.

Lemma step_plain sexp_str i st c :
  quoted st = [] -> escaped st = false -> plain c = true ->
  step sexp_str i st c = inr (set_terminal st (terminal st ++ [c])).
Proof.
  destruct st as [rs q e t]; simpl; intros Hq He Hc; subst.
  apply plain_tests in Hc as (Hc & He & Hl & Hr & Hq & Hs).
  unfold step, terminal_block, escape_block, dispatch_block; simpl.
  destruct t as [|t0 t]; simpl.
  - now rewrite He, Hs, Hl, Hr, Hq.
  - now rewrite Hc.
Qed.

Lemma loop_plain sexp_str text : forall i st,
  quoted st = [] -> escaped st = false -> forallb plain text = true ->
  loop sexp_str i st text = inr (set_terminal st (terminal st ++ text)).
Proof.
  induction text as [|c text IH]; simpl; intros i st Hq He Ht.
  - rewrite app_nil_r. now destruct st.
  - apply andb_true_iff in Ht as [Hc Ht].
    rewrite step_plain by assumption.
    rewrite IH by assumption. simpl.
    unfold set_terminal. simpl. now rewrite <- app_assoc.
Qed.

Lemma step_inner sexp_str i st c :
  quoted st <> [] -> terminal st = [] -> escaped st = false ->
  inner c = true ->
  step sexp_str i st c = inr (set_quoted st (quoted st ++ [c])).
Proof.
  destruct st as [rs q e t]; simpl; intros Hq Ht He Hc; subst.
  unfold inner in Hc. apply andb_true_iff in Hc as [Hc1 Hc2].
  apply negb_true_iff in Hc1, Hc2.
  destruct q as [|q0 q]; [congruence|].
  unfold step, terminal_block, escape_block, dispatch_block; simpl.
  now rewrite Hc2, Hc1.
Qed.

Lemma loop_inner sexp_str body : forall i st,
  quoted st <> [] -> terminal st = [] -> escaped st = false ->
  forallb inner body = true ->
  loop sexp_str i st body = inr (set_quoted st (quoted st ++ body)).
Proof.
  induction body as [|c body IH]; simpl; intros i st Hq Ht He Hb.
  - rewrite app_nil_r. now destruct st.
  - apply andb_true_iff in Hb as [Hc Hb].
    rewrite step_inner by assumption.
    rewrite IH; simpl; try assumption.
    + unfold set_quoted. simpl. now rewrite <- app_assoc.
    + destruct (quoted st); simpl; discriminate.
Qed.

(** A space concludes the pending terminal and is skipped. *)
Lemma step_space sexp_str i st :
  quoted st = [] -> escaped st = false ->
  step sexp_str i st 32 = inr (settle st).
Proof.
  destruct st as [rs q e t]; simpl; intros Hq He; subst.
  destruct t; reflexivity.
Qed.

(** An open parenthesis concludes the pending terminal and pushes an empty
    accumulator. *)
Lemma step_lpar sexp_str i st :
  quoted st = [] -> escaped st = false ->
  step sexp_str i st c_lpar =
  inr (set_return_stack (settle st) ([] :: return_stack (settle st))).
Proof.
  destruct st as [rs q e t]; simpl; intros Hq He; subst.
  destruct t; reflexivity.
Qed.

(** A close parenthesis concludes the pending terminal, pops the
    accumulator and appends it, as a list, to the one below. *)
Lemma step_rpar sexp_str i st children next below :
  quoted st = [] -> escaped st = false ->
  return_stack (settle st) = children :: next :: below ->
  step sexp_str i st c_rpar =
  inr (set_return_stack (settle st)
         ((next ++ [SexpList children]) :: below)).
Proof.
  destruct st as [rs q e t]; simpl; intros Hq He; subst.
  destruct t; unfold settle; simpl.
  - intros ->. reflexivity.
  - destruct rs as [|top rs']; simpl; [discriminate|].
    intros H; inversion H; subst. reflexivity.
Qed.

Lemma settle_ready rs :
  settle (mkState rs [] false []) = mkState rs [] false [].
Proof.
  reflexivity.
Qed.

(** A whole quoted literal read from a state with nothing pending. *)
Lemma loop_plain_literal sexp_str i top below body :
  forallb inner body = true ->
  loop sexp_str i (mkState (top :: below) [] false [])
    (c_quote :: body ++ [c_quote])
  = inr (mkState ((top ++ [SexpString (c_quote :: body ++ [c_quote])])
                    :: below) [] false []).
Proof.
  intros Hb.
  change (c_quote :: body ++ [c_quote])
    with ([c_quote] ++ body ++ [c_quote]) at 1.
  rewrite loop_app. cbn [loop app length].
  change (step sexp_str i (mkState (top :: below) [] false []) c_quote)
    with (@inr error _ (mkState (top :: below) [c_quote] false [])).
  cbv iota beta. rewrite loop_app, loop_inner; try assumption;
    try reflexivity; try discriminate.
Qed.

(** *** Reading a printed tree *)

Lemma reads_atom text :
  printable_atom text = true -> reads text [SexpString text].
Proof.
  unfold printable_atom. intros H sexp_str i top below.
  apply orb_true_iff in H as [H|H].
  - apply andb_true_iff in H as [Hne Hp].
    eexists. split; [apply loop_plain; [reflexivity|reflexivity|exact Hp]|].
    simpl. split; [reflexivity|]. split; [reflexivity|].
    destruct text; [discriminate|]. reflexivity.
  - unfold is_plain_literal in H. destruct text as [|c0 r]; [discriminate|].
    apply andb_true_iff in H as [H Hb].
    apply andb_true_iff in H as [H Hl].
    apply andb_true_iff in H as [H0 Hr].
    apply Z.eqb_eq in H0, Hl. subst c0.
    assert (Er : r = removelast r ++ [c_quote]).
    { rewrite <- Hl. apply app_removelast_last. now destruct r. }
    rewrite Er. eexists.
    split; [apply loop_plain_literal; exact Hb|].
    repeat split.
Qed.

Lemma reads_nil : reads [] [].
Proof.
  intros sexp_str i top below. eexists. split; [reflexivity|].
  simpl. rewrite app_nil_r. repeat split.
Qed.

(** Two printed sequences separated by a space. *)
Lemma reads_space text1 nodes1 text2 nodes2 :
  reads text1 nodes1 -> reads text2 nodes2 ->
  reads (text1 ++ 32 :: text2) (nodes1 ++ nodes2).
Proof.
  intros H1 H2 sexp_str i top below.
  destruct (H1 sexp_str i top below) as (st1 & L1 & Q1 & E1 & S1).
  rewrite loop_app, L1. cbn [loop].
  rewrite step_space, S1 by assumption.
  destruct (H2 sexp_str (S (i + length text1)) (top ++ nodes1) below)
    as (st2 & L2 & Q2 & E2 & S2).
  exists st2. rewrite app_assoc. auto.
Qed.

Lemma reads_join children :
  Forall (fun n => reads (serialize n) [n]) children ->
  reads (join_spaces (map serialize children)) children.
Proof.
  induction 1 as [|c cs Hc Hcs IH]; [apply reads_nil|].
  destruct cs as [|c2 cs]; [exact Hc|].
  change (join_spaces (map serialize (c :: c2 :: cs)))
    with (serialize c ++ 32 :: join_spaces (map serialize (c2 :: cs))).
  change (c :: c2 :: cs) with ([c] ++ c2 :: cs).
  now apply reads_space.
Qed.

(** A printed sequence wrapped in parentheses. *)
Lemma reads_parens text children :
  reads text children ->
  reads (c_lpar :: text ++ [c_rpar]) [SexpList children].
Proof.
  intros H sexp_str i top below.
  cbn [loop]. rewrite step_lpar by reflexivity. rewrite settle_ready.
  unfold set_return_stack at 1.
  cbn [return_stack quoted escaped terminal].
  destruct (H sexp_str (S i) [] (top :: below)) as (st1 & L1 & Q1 & E1 & S1).
  rewrite loop_app, L1. cbn [loop].
  rewrite (step_rpar _ _ _ children top below) by (now rewrite ?S1).
  rewrite S1. eexists. split; [reflexivity|]. repeat split.
Qed.

Lemma forallb_flat_map {A B} (p : B -> bool) (f : A -> list B) l :
  forallb p (flat_map f l) = forallb (fun x => forallb p (f x)) l.
Proof.
  induction l as [|x l IH]; simpl; [reflexivity|].
  now rewrite forallb_app, IH.
Qed.

Lemma reads_node n :
  forallb printable_atom (atoms n) = true -> reads (serialize n) [n].
Proof.
  induction n as [text|children IH] using SexpNode_ind; simpl.
  - rewrite andb_true_r. apply reads_atom.
  - rewrite forallb_flat_map, forallb_forall. intros Hall.
    apply reads_parens, reads_join.
    rewrite Forall_forall in *. intros c Hc. apply IH; auto.
Qed.

Lemma reads_level nodes :
  level_printable nodes = true ->
  reads (join_spaces (map serialize nodes)) nodes.
Proof.
  unfold level_printable, forest_atoms.
  rewrite forallb_flat_map, forallb_forall. intros Hall.
  apply reads_join. rewrite Forall_forall. intros c Hc.
  apply reads_node; auto.
Qed.

(** The final check sees the stack with the pending terminal concluded. *)
Lemma finish_settle sexp_str st nodes :
  return_stack (settle st) = [nodes] -> nodes <> [] ->
  finish sexp_str st = inr nodes.
Proof.
  unfold finish, settle. intros Hrs Hne.
  destruct (empty (terminal st)); simpl in *; rewrite Hrs; simpl;
    destruct nodes; [congruence|reflexivity|congruence|reflexivity].
Qed.

(** Parsing the printed children of a printable, non-empty list, without
    parentheses around them, gives the children back. *)
Lemma sexp_parse_printed nodes :
  level_printable nodes = true -> nodes <> [] ->
  sexp_parse (join_spaces (map serialize nodes)) = inr nodes.
Proof.
  intros Hp Hne. unfold sexp_parse, init.
  destruct (reads_level nodes Hp (join_spaces (map serialize nodes))
              0%nat [] []) as (st' & L & Q & E & S).
  rewrite L. apply finish_settle; [|assumption]. now rewrite S.
Qed.

(** Parsing the printed form of a printable list gives a top-level list
    with that list as its single child. *)
Lemma sexp_parse_printed_list nodes :
  level_printable nodes = true ->
  sexp_parse (serialize (SexpList nodes)) = inr [SexpList nodes].
Proof.
  intros Hp. unfold sexp_parse, init.
  destruct (reads_parens _ _ (reads_level nodes Hp)
              (serialize (SexpList nodes)) 0%nat [] [])
    as (st' & L & Q & E & S).
  change (c_lpar :: join_spaces (map serialize nodes) ++ [c_rpar])
    with (serialize (SexpList nodes)) in L.
  rewrite L. apply finish_settle; [|discriminate]. now rewrite S.
Qed.

(** *** Trees of backslash-free inputs are printable *)

Lemma level_printable_snoc nodes n :
  level_printable (nodes ++ [n])
  = level_printable nodes && forallb printable_atom (atoms n).
Proof.
  unfold level_printable, forest_atoms.
  rewrite flat_map_app, forallb_app. simpl. now rewrite app_nil_r.
Qed.

Lemma stack_printable_pop top below :
  empty below = false ->
  level_printable top = true -> forallb level_printable below = true ->
  forallb level_printable (append_back below (SexpList top)) = true.
Proof.
  destruct below as [|next below']; [discriminate|]. simpl.
  intros _ Ht Hb. apply andb_true_iff in Hb as [Hn Hb'].
  rewrite level_printable_snoc, Hn, Hb'. simpl.
  rewrite andb_true_r. exact Ht.
Qed.

Lemma plain_atom_printable text :
  text <> [] -> forallb plain text = true -> printable_atom text = true.
Proof.
  unfold printable_atom. intros Hne ->. destruct text; [congruence|].
  reflexivity.
Qed.

Lemma plain_literal_printable body :
  forallb inner body = true ->
  printable_atom (c_quote :: body ++ [c_quote]) = true.
Proof.
  intros Hb. unfold printable_atom, is_plain_literal.
  rewrite last_last, removelast_last, Hb.
  replace (empty (body ++ [c_quote])) with false by (now destruct body).
  apply orb_true_r.
Qed.

Lemma plain_start c :
  (c =? c_escape) = false -> Py_UNICODE_ISSPACE c = false ->
  (c =? c_lpar) = false -> (c =? c_rpar) = false ->
  (c =? c_quote) = false -> plain c = true.
Proof.
  unfold plain, concludes. now intros -> -> -> -> ->.
Qed.

#[local] Arguments printable_atom : simpl never.
#[local] Arguments level_printable : simpl never.
#[local] Arguments plain : simpl never.
#[local] Arguments inner : simpl never.

Lemma plain_extend c :
  (c =? c_escape) = false -> concludes c = false -> plain c = true.
Proof.
  unfold plain. now intros -> ->.
Qed.

Lemma inner_extend c :
  (c =? c_escape) = false -> (c =? c_quote) = false -> inner c = true.
Proof.
  unfold inner. now intros -> ->.
Qed.

Lemma step_printable sexp_str i st c st' :
  (c =? c_escape) = false ->
  wf_state st -> printable_state st = true ->
  step sexp_str i st c = inr st' -> printable_state st' = true.
Proof.
  intros Hc [Hs He Hx Hq]. destruct st as [rs q e t].
  unfold printable_state. simpl in *. intros Hok.
  destruct rs as [|top below]; [congruence|].
  apply andb_true_iff in Hok as [Hok Hqp].
  apply andb_true_iff in Hok as [Hok Hesc].
  apply andb_true_iff in Hok as [Hrs Ht]. simpl in Hrs.
  apply andb_true_iff in Hrs as [Htop Hbelow].
  destruct e; [discriminate|]. clear Hesc Hx.
  assert (Hpa : t <> [] -> printable_atom t = true)
    by (intros; now apply plain_atom_printable).
  assert (Hpl : forall body, q = c_quote :: body ->
                             printable_atom (q ++ [34]) = true).
  { intros body ->. simpl in Hqp.
    apply (plain_literal_printable body). exact Hqp. }
  destruct t as [|t0 t]; destruct q as [|q0 q];
    try (destruct He; discriminate);
    step_cases; intros H; inversion H; subst; clear H; simpl;
    rewrite ?level_printable_snoc, ?Htop, ?Hbelow; simpl;
    try congruence; try reflexivity;
    rewrite ?Hpa by discriminate; simpl; rewrite ?andb_true_r;
    try match goal with
      | |- forallb level_printable (append_back _ (SexpList _)) = true =>
          apply stack_printable_pop; try assumption;
          rewrite ?level_printable_snoc, ?Htop; simpl;
          rewrite ?Hpa by discriminate; reflexivity
      | |- plain c = true => now apply plain_start
      | |- printable_atom (_ :: _ ++ [34]) = true =>
          destruct Hq as [Hq|[body Hq]]; [discriminate|];
          now apply (Hpl body)
      | |- (_ =? c_quote) && forallb inner (_ ++ [c]) = true =>
          simpl in Hqp; apply andb_true_iff in Hqp as [Hq0 Hqb];
          rewrite Hq0, forallb_app, Hqb; simpl;
          rewrite inner_extend; [reflexivity|assumption|];
          match goal with
          | H : negb false && (c =? c_quote) = false |- _ => exact H
          | H : (c =? c_quote) = false |- _ => exact H
          end
      | |- plain _ && forallb plain (_ ++ [c]) = true =>
          simpl in Ht; apply andb_true_iff in Ht as [Ht0 Ht1];
          rewrite Ht0, forallb_app, Ht1; simpl;
          rewrite plain_extend; [reflexivity|assumption|assumption]
      end;
    reflexivity.
Qed.

Lemma loop_printable sexp_str rest : forall i st st',
  forallb (fun c => negb (c =? c_escape)) rest = true ->
  wf_state st -> printable_state st = true ->
  loop sexp_str i st rest = inr st' -> printable_state st' = true.
Proof.
  induction rest as [|c rest IH]; simpl; intros i st st' Hr Hwf Hok H.
  - inversion H; subst; assumption.
  - apply andb_true_iff in Hr as [Hc Hr]. apply negb_true_iff in Hc.
    destruct (step sexp_str i st c) as [e|st1] eqn:Hstep; [discriminate|].
    eapply IH; [eassumption| | |eassumption].
    + eapply step_wf; eassumption.
    + eapply step_printable; eassumption.
Qed.

Lemma finish_printable sexp_str st nodes :
  printable_state st = true -> finish sexp_str st = inr nodes ->
  level_printable nodes = true /\ nodes <> [].
Proof.
  unfold printable_state, finish. intros Hok.
  apply andb_true_iff in Hok as [Hok _].
  apply andb_true_iff in Hok as [Hok _].
  apply andb_true_iff in Hok as [Hrs Ht].
  set (rs := if negb (empty (terminal st)) then _ else _).
  assert (Hrs' : forallb level_printable rs = true).
  { subst rs. destruct (terminal st) as [|t0 t] eqn:Et; simpl;
      [assumption|].
    destruct (return_stack st) as [|top below]; simpl in *; [reflexivity|].
    apply andb_true_iff in Hrs as [Htop Hb].
    rewrite level_printable_snoc, Htop, Hb. simpl.
    rewrite plain_atom_printable; [reflexivity|discriminate|exact Ht]. }
  destruct rs as [|top [|next below]]; simpl; try discriminate.
  change (front [top]) with top.
  destruct top as [|n top]; simpl; [discriminate|].
  intros H; inversion H; subst. simpl in Hrs'.
  rewrite andb_true_r in Hrs'. split; [assumption|discriminate].
Qed.

(** C9 (as stated, refuted). The input a parses to the top-level list
    with the single atom a; that list prints as (a), and (a) parses to a
    top-level list whose single child is a list, not the atom. *)
Lemma C9_round_trip_adds_a_list :
  sexp_parse [97] = inr [SexpString [97]]
  /\ serialize (SexpList [SexpString [97]]) = [40; 97; 41]
  /\ sexp_parse (serialize (SexpList [SexpString [97]]))
     = inr [SexpList [SexpString [97]]]
  /\ sexp_parse (serialize (SexpList [SexpString [97]]))
     <> inr [SexpString [97]].
Proof.
  repeat split. vm_compute. discriminate.
Qed.

(** C9 (amended). For every input without a backslash on which parsing
    succeeds, printing the resulting top-level list (every atom as its
    text, the children of every list joined with single spaces and
    wrapped in parentheses) and parsing the printed text succeeds with a
    top-level list whose single child is the original top-level list. *)
Theorem C9_print_parse_round_trip sexp_str nodes :
  ~ In c_escape sexp_str ->
  sexp_parse sexp_str = inr nodes ->
  sexp_parse (serialize (SexpList nodes)) = inr [SexpList nodes].
Proof.
  intros Hno. unfold sexp_parse at 1.
  destruct (loop sexp_str 0 init sexp_str) as [e|st] eqn:Hloop;
    [discriminate|].
  intros Hfin.
  assert (Hr : forallb (fun c => negb (c =? c_escape)) sexp_str = true).
  { apply forallb_forall. intros c Hc. apply negb_true_iff, Z.eqb_neq.
    intros ->. contradiction. }
  assert (Hok : printable_state st = true).
  { eapply loop_printable;
      [exact Hr | apply init_wf | reflexivity | eassumption]. }
  destruct (finish_printable _ _ _ Hok Hfin) as [Hp Hne].
  now apply sexp_parse_printed_list.
Qed.

(** The statement at an input with two spaces and without a space where
    the printer puts one. *)
Lemma C9_print_parse_round_trip_witness :
  let tree := [ SexpList [ SexpString (codes "a");
                           SexpList [SexpString (codes "b")];
                           SexpString (codes "c") ];
                SexpString (codes "d") ] in
  sexp_parse (codes "(a  (b)c)d") = inr tree
  /\ serialize (SexpList tree) = codes "((a (b) c) d)"
  /\ sexp_parse (serialize (SexpList tree)) = inr [SexpList tree].
Proof.
  intros tree. split; [reflexivity|]. split; [reflexivity|].
  apply (C9_print_parse_round_trip (codes "(a  (b)c)d") tree).
  - simpl. intros H.
    repeat (destruct H as [H|H]; [discriminate|]). exact H.
  - reflexivity.
Defined.

(** * Further properties of the parser *)

(** ** Whitespace classification *)

(** X1. The look-up table for the code points below 128 and the switch of
    [_PyUnicode_IsWhitespace] agree: on every code point the macro gives
    what the switch gives. *)
Theorem X1_whitespace_table_agrees ch :
  Py_UNICODE_ISSPACE ch = _PyUnicode_IsWhitespace ch.
Proof.
  unfold Py_UNICODE_ISSPACE.
  destruct (ch <? 128) eqn:Hlt; [|reflexivity].
  apply Z.ltb_lt in Hlt.
  destruct ch as [|p|p]; [reflexivity| |reflexivity].
  assert (Hn : (Pos.to_nat p < 128)%nat) by lia.
  rewrite <- (Pos2Nat.id p). clear Hlt.
  remember (Pos.to_nat p) as n eqn:En. clear En p.
  do 128 (destruct n as [|n]; [vm_compute; reflexivity|]).
  lia.
Qed.

Lemma isspace_not_escape c :
  Py_UNICODE_ISSPACE c = true -> (c =? c_escape) = false.
Proof.
  intros H. destruct (c =? c_escape) eqn:E; [|reflexivity].
  apply Z.eqb_eq in E. subst c. discriminate H.
Qed.

(** Whitespace read with nothing pending leaves the state as it is. *)
Lemma step_whitespace sexp_str i rs c :
  Py_UNICODE_ISSPACE c = true ->
  step sexp_str i (mkState rs [] false []) c = inr (mkState rs [] false []).
Proof.
  intros H. unfold step, terminal_block, escape_block, dispatch_block.
  simpl. now rewrite (isspace_not_escape c H), H.
Qed.

Lemma loop_whitespace sexp_str ws : forall i rs,
  forallb Py_UNICODE_ISSPACE ws = true ->
  loop sexp_str i (mkState rs [] false []) ws
  = inr (mkState rs [] false []).
Proof.
  induction ws as [|c ws IH]; simpl; intros i rs H; [reflexivity|].
  apply andb_true_iff in H as [Hc Hws].
  rewrite step_whitespace by assumption. now apply IH.
Qed.

(** ** Inputs without an element *)

(** X2. An input that consists of whitespace only, the empty input
    included, is malformed: the error is the malformed-sexp error with the
    input, cut to 72 code points when it is longer than 100. *)
Theorem X2_whitespace_only_is_malformed sexp_str :
  forallb Py_UNICODE_ISSPACE sexp_str = true ->
  sexp_parse sexp_str
  = inl (MalformedSexp
           (if (100 <? length sexp_str)%nat
            then firstn 72 sexp_str else sexp_str)).
Proof.
  intros H. unfold sexp_parse, init.
  rewrite loop_whitespace by assumption. reflexivity.
Qed.

(** The statement at the empty input and at 101 spaces. *)
Lemma X2_whitespace_only_is_malformed_witness :
  sexp_parse [] = inl (MalformedSexp [])
  /\ sexp_parse (repeat 32 101) = inl (MalformedSexp (repeat 32 72)).
Proof.
  split.
  - exact (X2_whitespace_only_is_malformed [] eq_refl).
  - exact (X2_whitespace_only_is_malformed (repeat 32 101) eq_refl).
Defined.

(** ** What the loop keeps *)

(** X3. After every prefix of every input the accumulator stack is not
    empty: [return_stack.back()] and [return_stack.front()] are never
    taken of an empty vector. *)
Theorem X3_stack_never_empty sexp_str pre st :
  loop sexp_str 0 init pre = inr st -> return_stack st <> [].
Proof.
  intros H. now destruct (sexp_parse_wf _ _ _ H).
Qed.

(** The statement after the prefix (a) of the input (a)). *)
Lemma X3_stack_never_empty_witness :
  return_stack (mkState [[SexpList [SexpString [97]]]] [] false []) <> [].
Proof.
  exact (X3_stack_never_empty [40; 97; 41; 41] [40; 97; 41]
           (mkState [[SexpList [SexpString [97]]]] [] false []) eq_refl).
Defined.

(** X4. After every prefix of every input, a pending terminal comes with a
    clear escape flag and no open literal; the next code point then either
    concludes the terminal, when it is a parenthesis, a double quote or
    whitespace, or is appended to it unchanged, whatever it is: no escape
    is resolved inside a bare atom. *)
Theorem X4_no_escape_inside_bare_atom sexp_str pre st :
  loop sexp_str 0 init pre = inr st -> terminal st <> [] ->
  escaped st = false /\ quoted st = []
  /\ forall c i,
       concludes c = false ->
       step sexp_str i st c = inr (set_terminal st (terminal st ++ [c])).
Proof.
  intros H Ht. destruct (sexp_parse_wf _ _ _ H) as [_ He Hx _].
  assert (Hesc : escaped st = false).
  { destruct (escaped st); [|reflexivity]. now specialize (Hx eq_refl). }
  assert (Hq : quoted st = []) by (destruct He; [contradiction|assumption]).
  split; [assumption|]. split; [assumption|].
  intros c i Hc. destruct st as [rs q e t]; simpl in *; subst.
  destruct t as [|t0 t]; [congruence|].
  unfold step, terminal_block. simpl. now rewrite Hc.
Qed.

(** The statement after the prefix a of the input a, b, and for the
    letter n. *)
Lemma X4_no_escape_inside_bare_atom_witness :
  escaped (mkState [[]] [] false [97]) = false
  /\ step [97; 98] 1 (mkState [[]] [] false [97]) 110
     = inr (mkState [[]] [] false [97; 110]).
Proof.
  destruct (X4_no_escape_inside_bare_atom [97; 98] [97]
              (mkState [[]] [] false [97]) eq_refl)
    as (He & _ & Hstep); [discriminate|].
  split; [exact He|]. exact (Hstep 110 1%nat eq_refl).
Defined.

(** ** The unmatched-close-parenthesis error *)





(** ** The input text and the index only label errors *)

Lemma step_shift sexp_str w k i st c :
  step w (k + i) st c =
  match step sexp_str i st c with
  | inl e => inl (shift_error k w e)
  | inr st' => inr st'
  end.
Proof.
  destruct st as [rs q e t]. step_cases; reflexivity.
Qed.

Lemma loop_shift sexp_str w k rest : forall i st,
  loop w (k + i) st rest =
  match loop sexp_str i st rest with
  | inl e => inl (shift_error k w e)
  | inr st' => inr st'
  end.
Proof.
  induction rest as [|c rest IH]; simpl; intros i st; [reflexivity|].
  rewrite (step_shift sexp_str).
  destruct (step sexp_str i st c) as [e|st1]; [reflexivity|].
  rewrite <- Nat.add_succ_r. apply IH.
Qed.



(** ** Runs of the loop over a deeper or fuller stack *)

Lemma frame_cons pre extra top next below :
  frame pre extra (top :: next :: below)
  = top :: frame pre extra (next :: below).
Proof.
  reflexivity.
Qed.

Lemma frame_not_empty pre extra next below :
  empty (frame pre extra (next :: below)) = false.
Proof.
  destruct below; reflexivity.
Qed.

Lemma append_back_frame pre extra next below node :
  append_back (frame pre extra (next :: below)) node
  = frame pre extra (append_back (next :: below) node).
Proof.
  destruct below; simpl; [|reflexivity]. now rewrite app_assoc.
Qed.

#[local] Arguments frame : simpl never.

(** An iteration that succeeds does the same over the framed stack. *)
Lemma step_frame pre extra sexp_str w i j st c st' :
  return_stack st <> [] ->
  step sexp_str i st c = inr st' ->
  step w j (set_return_stack st (frame pre extra (return_stack st))) c
  = inr (set_return_stack st' (frame pre extra (return_stack st'))).
Proof.
  destruct st as [rs q e t]. simpl. intros Hne.
  destruct rs as [|top [|next below]]; [congruence| |].
  - change (frame pre extra [top]) with ((pre ++ top) :: extra).
    step_cases; intros H; inversion H; subst; clear H; simpl;
      rewrite ?frame_cons; unfold frame; rewrite <- ?app_assoc;
      reflexivity.
  - rewrite frame_cons.
    step_cases; intros H; inversion H; subst; clear H; simpl;
      rewrite ?frame_cons, ?append_back_frame; simpl;
      try reflexivity;
      match goal with
      | E : empty (frame _ _ (_ :: _)) = true |- _ =>
          rewrite frame_not_empty in E; discriminate
      end.
Qed.

Lemma loop_frame pre extra sexp_str w rest : forall i j st st',
  wf_state st ->
  loop sexp_str i st rest = inr st' ->
  loop w j (set_return_stack st (frame pre extra (return_stack st))) rest
  = inr (set_return_stack st' (frame pre extra (return_stack st'))).
Proof.
  induction rest as [|c rest IH]; simpl; intros i j st st' Hwf H.
  - now inversion H.
  - destruct (step sexp_str i st c) as [e|st1] eqn:Hstep; [discriminate|].
    rewrite (step_frame pre extra sexp_str w i j st c st1);
      [|apply Hwf|assumption].
    eapply IH; [|eassumption]. eapply step_wf; eassumption.
Qed.

(** What the final check returns, read off the settled stack. *)
Lemma finish_inr sexp_str st nodes :
  finish sexp_str st = inr nodes ->
  return_stack (settle st) = [nodes] /\ nodes <> [].
Proof.
  assert (Hrs : return_stack (settle st)
                = if negb (empty (terminal st))
                  then append_back (return_stack st)
                         (SexpString (terminal st))
                  else return_stack st).
  { unfold settle. now destruct (empty (terminal st)). }
  unfold finish. rewrite <- Hrs.
  destruct (return_stack (settle st)) as [|top [|next below]]; simpl;
    try discriminate.
  change (front [top]) with top.
  destruct top as [|n top]; simpl; [discriminate|].
  intros H; inversion H; subst. split; [reflexivity|discriminate].
Qed.

Lemma settle_frame pre extra st :
  return_stack st <> [] ->
  settle (set_return_stack st (frame pre extra (return_stack st)))
  = set_return_stack (settle st)
      (frame pre extra (return_stack (settle st))).
Proof.
  destruct st as [rs q e t]. unfold settle. simpl. intros Hne.
  destruct t as [|t0 t]; simpl; [reflexivity|].
  unfold set_terminal, set_return_stack. simpl.
  destruct rs as [|top [|next below]]; [congruence| |].
  - unfold frame. simpl. now rewrite app_assoc.
  - now rewrite frame_cons.
Qed.

(** Whitespace concludes the pending terminal and is skipped. *)
Lemma step_whitespace_settle sexp_str i st c :
  quoted st = [] -> escaped st = false ->
  Py_UNICODE_ISSPACE c = true ->
  step sexp_str i st c = inr (settle st).
Proof.
  destruct st as [rs q e t]; simpl; intros Hq He Hc; subst.
  pose proof (isspace_not_escape c Hc) as Hne.
  unfold step, terminal_block, escape_block, dispatch_block, concludes,
    settle.
  destruct t as [|t0 t]; simpl; rewrite ?Hc, ?orb_true_r; simpl;
    now rewrite Hne, Hc.
Qed.

Lemma settle_clean st nodes :
  quoted st = [] -> escaped st = false ->
  return_stack (settle st) = [nodes] ->
  settle st = mkState [nodes] [] false [].
Proof.
  destruct st as [rs q e t]. unfold settle. simpl. intros -> ->.
  destruct t; simpl; now intros ->.
Qed.

Lemma settle_settled st rs :
  settle (set_return_stack (settle st) rs) = set_return_stack (settle st) rs.
Proof.
  destruct st as [rs0 q e t]. unfold settle. simpl.
  destruct t; reflexivity.
Qed.

(** ** Composition of inputs *)

(** X7. Two inputs that parse, the first ending with no literal open and
    the escape flag clear, parse, when joined by one whitespace code
    point, to the top-level elements of the first followed by those of
    the second. *)
Theorem X7_concatenation s1 s2 sep st1 nodes1 nodes2 :
  loop s1 0 init s1 = inr st1 ->
  quoted st1 = [] -> escaped st1 = false ->
  Py_UNICODE_ISSPACE sep = true ->
  sexp_parse s1 = inr nodes1 ->
  sexp_parse s2 = inr nodes2 ->
  sexp_parse (s1 ++ sep :: s2) = inr (nodes1 ++ nodes2).
Proof.
  intros Hl1 Hq He Hsep Hp1 Hp2.
  unfold sexp_parse in Hp1. rewrite Hl1 in Hp1.
  apply finish_inr in Hp1 as [Hrs1 _].
  pose proof (settle_clean _ _ Hq He Hrs1) as Hs1.
  unfold sexp_parse in Hp2.
  destruct (loop s2 0 init s2) as [e|st2] eqn:Hl2; [discriminate|].
  apply finish_inr in Hp2 as [Hrs2 Hne2].
  set (w := s1 ++ sep :: s2). unfold sexp_parse. unfold w at 2.
  rewrite loop_app.
  change (loop w 0 init s1) with (loop w (0 + 0) init s1).
  rewrite (loop_shift s1), Hl1. cbn [loop].
  rewrite step_whitespace_settle, Hs1 by assumption.
  replace (mkState [nodes1] [] false [])
    with (set_return_stack init (frame nodes1 [] (return_stack init)))
    by (unfold init, set_return_stack, frame; simpl;
        now rewrite app_nil_r).
  rewrite (loop_frame nodes1 [] s2 w s2 0 _ init st2 init_wf Hl2).
  apply finish_settle.
  - rewrite settle_frame by (now destruct (sexp_parse_wf _ _ _ Hl2)).
    simpl. rewrite Hrs2. reflexivity.
  - destruct nodes2; [congruence|]. now destruct nodes1.
Qed.

(** The statement at ( a ) and b, space, c joined by a newline. *)
Lemma X7_concatenation_witness :
  sexp_parse [40; 97; 41; 10; 98; 32; 99]
  = inr [SexpList [SexpString [97]]; SexpString [98]; SexpString [99]].
Proof.
  exact (X7_concatenation [40; 97; 41] [98; 32; 99] 10
           (mkState [[SexpList [SexpString [97]]]] [] false [])
           [SexpList [SexpString [97]]] [SexpString [98]; SexpString [99]]
           eq_refl eq_refl eq_refl eq_refl eq_refl eq_refl).
Defined.

(** X8. An input that parses, ending with no literal open and the escape
    flag clear, parses, when put between parentheses, to a top-level list
    with one child: the list of its top-level elements. *)
Theorem X8_parenthesised sexp_str st nodes :
  loop sexp_str 0 init sexp_str = inr st ->
  quoted st = [] -> escaped st = false ->
  sexp_parse sexp_str = inr nodes ->
  sexp_parse (c_lpar :: sexp_str ++ [c_rpar]) = inr [SexpList nodes].
Proof.
  intros Hl Hq He Hp.
  unfold sexp_parse in Hp. rewrite Hl in Hp.
  apply finish_inr in Hp as [Hrs _].
  pose proof (sexp_parse_wf _ _ _ Hl) as Hwf.
  set (w := c_lpar :: sexp_str ++ [c_rpar]).
  unfold sexp_parse. unfold w at 2. cbn [loop].
  change (step w 0 init c_lpar)
    with (@inr error _ (set_return_stack init
                          (frame [] [[]] (return_stack init)))).
  cbv iota beta. rewrite loop_app.
  rewrite (loop_frame [] [[]] sexp_str w sexp_str 0 _ init st init_wf Hl).
  cbn [loop].
  set (st' := set_return_stack st (frame [] [[]] (return_stack st))).
  assert (Hs' : return_stack (settle st') = nodes :: [] :: []).
  { unfold st'. rewrite settle_frame by apply Hwf. simpl.
    rewrite Hrs. reflexivity. }
  rewrite (step_rpar w _ st' nodes [] []); try assumption.
  apply finish_settle; [|discriminate].
  now rewrite settle_settled.
Qed.

(** The statement at the input a, space, b. *)
Lemma X8_parenthesised_witness :
  sexp_parse [40; 97; 32; 98; 41]
  = inr [SexpList [SexpString [97]; SexpString [98]]].
Proof.
  exact (X8_parenthesised [97; 32; 98]
           (mkState [[SexpString [97]]] [] false [98])
           [SexpString [97]; SexpString [98]]
           eq_refl eq_refl eq_refl eq_refl).
Defined.

(** X9. A pair of parentheses with nothing or only whitespace between
    them parses to a top-level list whose single child is the empty list,
    although the same whitespace alone is malformed. *)
Theorem X9_empty_list ws :
  forallb Py_UNICODE_ISSPACE ws = true ->
  sexp_parse (c_lpar :: ws ++ [c_rpar]) = inr [SexpList []].
Proof.
  intros Hws. unfold sexp_parse. cbn [loop].
  change (step (c_lpar :: ws ++ [c_rpar]) 0 init c_lpar)
    with (@inr error _ (mkState [[]; []] [] false [])).
  cbv iota beta. rewrite loop_app, loop_whitespace by assumption.
  reflexivity.
Qed.

(** The statement at a tab and a space between the parentheses. *)
Lemma X9_empty_list_witness :
  sexp_parse [40; 9; 32; 41] = inr [SexpList []].
Proof.
  exact (X9_empty_list [9; 32] eq_refl).
Defined.

(** ** Inputs without double quotes and backslashes *)

Lemma settle_quoted st : quoted (settle st) = quoted st.
Proof.
  unfold settle. now destruct (empty (terminal st)).
Qed.

Lemma settle_escaped st : escaped (settle st) = escaped st.
Proof.
  unfold settle. now destruct (empty (terminal st)).
Qed.

Lemma settle_terminal st : terminal (settle st) = [].
Proof.
  unfold settle. destruct (terminal st) eqn:E; simpl; [exact E|reflexivity].
Qed.

Lemma settle_length st :
  length (return_stack (settle st)) = length (return_stack st).
Proof.
  unfold settle. destruct (empty (terminal st)); simpl; [reflexivity|].
  now destruct (return_stack st).
Qed.

Lemma forest_atoms_app nodes1 nodes2 :
  forest_atoms (nodes1 ++ nodes2) = forest_atoms nodes1 ++ forest_atoms nodes2.
Proof.
  apply flat_map_app.
Qed.

Lemma held_text_settle st :
  return_stack st <> [] -> held_text (settle st) = held_text st.
Proof.
  destruct st as [rs q e t]. unfold settle, held_text. simpl. intros Hne.
  destruct t as [|t0 t]; simpl; [reflexivity|].
  destruct rs as [|top below]; [congruence|]. simpl.
  rewrite !flat_map_app, !concat_app. simpl.
  rewrite forest_atoms_app, !app_nil_r, concat_app. simpl.
  now rewrite app_nil_r, <- !app_assoc.
Qed.

(** A close parenthesis read when the settled stack holds one accumulator
    only is the unmatched-close-parenthesis error. *)
Lemma step_rpar_error sexp_str i st top :
  quoted st = [] -> escaped st = false ->
  return_stack (settle st) = [top] ->
  step sexp_str i st c_rpar
  = inl (ExtraCloseParen i (wstring_of_pointer sexp_str)).
Proof.
  destruct st as [rs q e t]; simpl; intros Hq He; subst.
  destruct t; unfold settle; simpl.
  - intros ->. reflexivity.
  - destruct rs as [|top0 [|next rs']]; simpl; try discriminate.
    intros _. reflexivity.
Qed.

(** The four things an iteration does on a code point that is neither a
    double quote nor a backslash, with no literal open and the flag
    clear. *)
Lemma step_inner_cases sexp_str i st c st' :
  return_stack st <> [] -> quoted st = [] -> escaped st = false ->
  inner c = true -> step sexp_str i st c = inr st' ->
  (concludes c = false /\ st' = set_terminal st (terminal st ++ [c]))
  \/ (concludes c = true /\ Py_UNICODE_ISSPACE c = true /\ st' = settle st)
  \/ (c = c_lpar
      /\ st' = set_return_stack (settle st) ([] :: return_stack (settle st)))
  \/ (c = c_rpar
      /\ exists children next below,
           return_stack (settle st) = children :: next :: below
           /\ st' = set_return_stack (settle st)
                      ((next ++ [SexpList children]) :: below)).
Proof.
  intros Hne Hq He Hc Hstep.
  unfold inner in Hc. apply andb_true_iff in Hc as [Hc1 Hc2].
  apply negb_true_iff in Hc1, Hc2.
  destruct (concludes c) eqn:Hcon.
  - right. unfold concludes in Hcon. rewrite Hc1, orb_false_r in Hcon.
    destruct (c =? c_lpar) eqn:Hl.
    { apply Z.eqb_eq in Hl. subst c. right. left. split; [reflexivity|].
      rewrite step_lpar in Hstep by assumption. now inversion Hstep. }
    destruct (c =? c_rpar) eqn:Hr.
    { apply Z.eqb_eq in Hr. subst c. right. right. split; [reflexivity|].
      destruct (return_stack (settle st)) as [|children [|next below]]
        eqn:Hrs.
      - exfalso. apply Hne. pose proof (settle_length st) as Hlen.
        rewrite Hrs in Hlen. now destruct (return_stack st).
      - rewrite (step_rpar_error _ _ _ children) in Hstep by assumption.
        discriminate.
      - rewrite (step_rpar _ _ _ children next below) in Hstep
          by assumption.
        inversion Hstep. eauto. }
    simpl in Hcon. left. split; [reflexivity|]. split; [assumption|].
    rewrite step_whitespace_settle in Hstep by assumption.
    now inversion Hstep.
  - left. split; [reflexivity|].
    rewrite step_plain in Hstep; try assumption.
    + now inversion Hstep.
    + unfold plain. now rewrite Hcon, Hc2.
Qed.

Lemma held_text_push st :
  held_text (set_return_stack st ([] :: return_stack st)) = held_text st.
Proof.
  unfold held_text. simpl. rewrite flat_map_app. simpl.
  now rewrite app_nil_r.
Qed.

Lemma held_text_pop st children next below :
  return_stack st = children :: next :: below ->
  held_text (set_return_stack st ((next ++ [SexpList children]) :: below))
  = held_text st.
Proof.
  unfold held_text. simpl. intros ->. simpl.
  rewrite !flat_map_app. simpl.
  rewrite forest_atoms_app. simpl. fold (forest_atoms children).
  now rewrite !app_nil_r, <- !app_assoc.
Qed.

Lemma step_simple sexp_str i st c st' :
  return_stack st <> [] -> quoted st = [] -> escaped st = false ->
  inner c = true -> step sexp_str i st c = inr st' ->
  quoted st' = [] /\ escaped st' = false /\ return_stack st' <> []
  /\ (length (return_stack st') + (if (c =? c_rpar)%Z then 1 else 0)
      = length (return_stack st) + (if (c =? c_lpar)%Z then 1 else 0))%nat
  /\ held_text st' = held_text st ++ (if concludes c then [] else [c]).
Proof.
  intros Hne Hq He Hc Hstep.
  pose proof (settle_length st) as Hlen.
  pose proof (held_text_settle st Hne) as Hheld.
  destruct (step_inner_cases _ _ _ _ _ Hne Hq He Hc Hstep)
    as [[Hcon ->]|[(Hcon & Hs & ->)|[[-> ->]|(-> & ch & nx & bl & Hrs & ->)]]].
  - rewrite Hcon. unfold concludes in Hcon.
    apply orb_false_iff in Hcon as [Hcon _].
    apply orb_false_iff in Hcon as [Hcon _].
    apply orb_false_iff in Hcon as [Hl Hr]. rewrite Hl, Hr. simpl.
    repeat split; try assumption.
    unfold held_text. simpl. now rewrite app_assoc.
  - rewrite Hcon, settle_quoted, settle_escaped, Hlen, Hheld, app_nil_r.
    assert (Hl : (c =? c_lpar) = false)
      by (destruct (c =? c_lpar) eqn:E; [|reflexivity];
          apply Z.eqb_eq in E; subst c; discriminate Hs).
    assert (Hr : (c =? c_rpar) = false)
      by (destruct (c =? c_rpar) eqn:E; [|reflexivity];
          apply Z.eqb_eq in E; subst c; discriminate Hs).
    rewrite Hl, Hr. repeat split; try assumption.
    intros E. rewrite E in Hlen. now destruct (return_stack st).
  - simpl. rewrite settle_quoted, settle_escaped, Hlen.
    repeat split; try assumption; try discriminate; try lia.
    rewrite held_text_push, Hheld. now rewrite app_nil_r.
  - simpl. rewrite settle_quoted, settle_escaped.
    rewrite Hrs in Hlen. simpl in Hlen.
    repeat split; try assumption; try discriminate; try lia.
    rewrite (held_text_pop _ ch nx bl Hrs), Hheld. now rewrite app_nil_r.
Qed.

Lemma loop_simple sexp_str rest : forall i st st',
  return_stack st <> [] -> quoted st = [] -> escaped st = false ->
  forallb inner rest = true ->
  loop sexp_str i st rest = inr st' ->
  quoted st' = [] /\ escaped st' = false /\ return_stack st' <> []
  /\ (length (return_stack st') + count_occ Z.eq_dec rest c_rpar
      = length (return_stack st) + count_occ Z.eq_dec rest c_lpar)%nat
  /\ held_text st' = held_text st ++ atom_chars rest.
Proof.
  induction rest as [|c rest IH]; simpl; intros i st st' Hne Hq He Hr H.
  - inversion H; subst. rewrite app_nil_r. repeat split; auto.
  - apply andb_true_iff in Hr as [Hc Hr].
    destruct (step sexp_str i st c) as [e|st1] eqn:Hstep; [discriminate|].
    destruct (step_simple _ _ _ _ _ Hne Hq He Hc Hstep)
      as (Hq1 & He1 & Hne1 & Hlen1 & Hheld1).
    destruct (IH _ _ _ Hne1 Hq1 He1 Hr H)
      as (Hq' & He' & Hne' & Hlen' & Hheld').
    repeat split; try assumption.
    + destruct (Z.eq_dec c c_rpar) as [Er|Hnr];
        destruct (Z.eq_dec c c_lpar) as [El|Hnl];
        try (rewrite Er in El; discriminate El);
        try (apply Z.eqb_eq in Er; rewrite Er in Hlen1);
        try (apply Z.eqb_eq in El; rewrite El in Hlen1);
        try (apply Z.eqb_neq in Hnr; rewrite Hnr in Hlen1);
        try (apply Z.eqb_neq in Hnl; rewrite Hnl in Hlen1);
        lia.
    + rewrite Hheld', Hheld1, <- app_assoc. unfold atom_chars. simpl.
      now destruct (concludes c).
Qed.

Lemma init_stack : return_stack init <> [].
Proof.
  discriminate.
Qed.

Lemma simple_input s :
  ~ In c_quote s -> ~ In c_escape s -> forallb inner s = true.
Proof.
  intros Hq He. apply forallb_forall. intros c Hc. unfold inner.
  apply andb_true_iff. split; apply negb_true_iff, Z.eqb_neq;
    intros ->; contradiction.
Qed.

(** X10. An input without double quotes and backslashes that parses has
    balanced parentheses: as many open as close parentheses, and in no
    prefix more close than open ones. *)
Theorem X10_success_implies_balanced sexp_str nodes :
  ~ In c_quote sexp_str -> ~ In c_escape sexp_str ->
  sexp_parse sexp_str = inr nodes ->
  count_occ Z.eq_dec sexp_str c_lpar = count_occ Z.eq_dec sexp_str c_rpar
  /\ forall pre post,
       sexp_str = pre ++ post ->
       (count_occ Z.eq_dec pre c_rpar <= count_occ Z.eq_dec pre c_lpar)%nat.
Proof.
  intros Hq He Hp. pose proof (simple_input _ Hq He) as Hs.
  unfold sexp_parse in Hp.
  destruct (loop sexp_str 0 init sexp_str) as [e|st] eqn:Hl; [discriminate|].
  apply finish_inr in Hp as [Hrs _]. split.
  - destruct (loop_simple _ _ _ _ _ init_stack
                eq_refl eq_refl Hs Hl) as (_ & _ & _ & Hlen & _).
    rewrite <- settle_length, Hrs in Hlen. simpl in Hlen. lia.
  - intros pre post E. subst sexp_str.
    rewrite forallb_app in Hs. apply andb_true_iff in Hs as [Hpre _].
    rewrite loop_app in Hl.
    destruct (loop (pre ++ post) 0 init pre) as [e|st1] eqn:Hl1;
      [discriminate|].
    destruct (loop_simple _ _ _ _ _ init_stack eq_refl eq_refl Hpre Hl1)
      as (_ & _ & Hne & Hlen & _).
    simpl in Hlen. destruct (return_stack st1); [congruence|].
    simpl in Hlen. lia.
Qed.

(** The statement at the input ( a ( b ) ) c. *)
Lemma X10_success_implies_balanced_witness :
  count_occ Z.eq_dec [40; 97; 40; 98; 41; 41; 99] c_lpar
  = count_occ Z.eq_dec [40; 97; 40; 98; 41; 41; 99] c_rpar.
Proof.
  refine (proj1 (X10_success_implies_balanced [40; 97; 40; 98; 41; 41; 99]
                   [SexpList [SexpString [97]; SexpList [SexpString [98]]];
                    SexpString [99]] _ _ eq_refl)).
  - simpl. intros H.
    repeat (destruct H as [H|H]; [discriminate|]). exact H.
  - simpl. intros H.
    repeat (destruct H as [H|H]; [discriminate|]). exact H.
Defined.

(** X11. An input without double quotes and backslashes that parses loses
    and gains no text: the texts of the atoms of the tree, read left to
    right, concatenate to the input without its parentheses and
    whitespace. *)
Theorem X11_atoms_spell_the_input sexp_str nodes :
  ~ In c_quote sexp_str -> ~ In c_escape sexp_str ->
  sexp_parse sexp_str = inr nodes ->
  concat (forest_atoms nodes) = atom_chars sexp_str.
Proof.
  intros Hq He Hp. pose proof (simple_input _ Hq He) as Hs.
  unfold sexp_parse in Hp.
  destruct (loop sexp_str 0 init sexp_str) as [e|st] eqn:Hl; [discriminate|].
  apply finish_inr in Hp as [Hrs _].
  destruct (loop_simple _ _ _ _ _ init_stack
              eq_refl eq_refl Hs Hl) as (_ & _ & Hne & _ & Hheld).
  rewrite <- (held_text_settle st Hne) in Hheld.
  unfold held_text in Hheld. rewrite Hrs, settle_terminal in Hheld.
  simpl in Hheld. now rewrite !app_nil_r in Hheld.
Qed.

(** The statement at the input ( a b ( c ) ) d with spaces. *)
Lemma X11_atoms_spell_the_input_witness :
  concat (forest_atoms
            [SexpList [SexpString [97; 98]; SexpList [SexpString [99]]];
             SexpString [100]])
  = atom_chars [40; 97; 98; 32; 40; 99; 41; 41; 32; 100].
Proof.
  refine (X11_atoms_spell_the_input
            [40; 97; 98; 32; 40; 99; 41; 41; 32; 100] _ _ _ eq_refl).
  - simpl. intros H.
    repeat (destruct H as [H|H]; [discriminate|]). exact H.
  - simpl. intros H.
    repeat (destruct H as [H|H]; [discriminate|]). exact H.
Defined.

(** An iteration on a code point other than a double quote and a
    backslash succeeds unless it pops the last accumulator. *)
Lemma step_simple_succeeds sexp_str i st c :
  quoted st = [] -> escaped st = false -> inner c = true ->
  (c = c_rpar -> (2 <= length (return_stack st))%nat) ->
  exists st', step sexp_str i st c = inr st'.
Proof.
  intros Hq He Hc Hdepth.
  unfold inner in Hc. apply andb_true_iff in Hc as [Hc1 Hc2].
  apply negb_true_iff in Hc1, Hc2.
  destruct (concludes c) eqn:Hcon.
  - unfold concludes in Hcon. rewrite Hc1, orb_false_r in Hcon.
    destruct (c =? c_lpar) eqn:Hl.
    { apply Z.eqb_eq in Hl. subst c. rewrite step_lpar by assumption.
      eauto. }
    destruct (c =? c_rpar) eqn:Hr.
    { apply Z.eqb_eq in Hr. subst c. specialize (Hdepth eq_refl).
      rewrite <- settle_length in Hdepth.
      destruct (return_stack (settle st)) as [|children [|next below]]
        eqn:Hrs; simpl in Hdepth; try lia.
      rewrite (step_rpar _ _ _ children next below) by assumption.
      eauto. }
    simpl in Hcon. rewrite step_whitespace_settle by assumption. eauto.
  - rewrite step_plain; eauto. unfold plain. now rewrite Hcon, Hc2.
Qed.

Lemma loop_simple_succeeds sexp_str rest : forall i st,
  return_stack st <> [] -> quoted st = [] -> escaped st = false ->
  forallb inner rest = true ->
  (forall pre post,
      rest = pre ++ post ->
      (count_occ Z.eq_dec pre c_rpar
       < length (return_stack st) + count_occ Z.eq_dec pre c_lpar)%nat) ->
  exists st', loop sexp_str i st rest = inr st'.
Proof.
  induction rest as [|c rest IH]; simpl; intros i st Hne Hq He Hr Hbal;
    [eauto|].
  apply andb_true_iff in Hr as [Hc Hr].
  destruct (step_simple_succeeds sexp_str i st c Hq He Hc) as [st1 Hstep].
  { intros ->. specialize (Hbal [c_rpar] rest eq_refl).
    simpl in Hbal. lia. }
  rewrite Hstep.
  destruct (step_simple _ _ _ _ _ Hne Hq He Hc Hstep)
    as (Hq1 & He1 & Hne1 & Hlen1 & _).
  apply IH; try assumption.
  intros pre post E. specialize (Hbal (c :: pre) post).
  rewrite E in Hbal. specialize (Hbal eq_refl). simpl in Hbal.
  destruct (Z.eq_dec c c_rpar) as [Er|Hnr];
    destruct (Z.eq_dec c c_lpar) as [El|Hnl];
    try (rewrite Er in El; discriminate El);
    try (apply Z.eqb_eq in Er; rewrite Er in Hlen1);
    try (apply Z.eqb_eq in El; rewrite El in Hlen1);
    try (apply Z.eqb_neq in Hnr; rewrite Hnr in Hlen1);
    try (apply Z.eqb_neq in Hnl; rewrite Hnl in Hlen1);
    lia.
Qed.

(** Once a code point other than whitespace is read, the settled stack is
    no more the single empty accumulator. *)
Lemma step_simple_live sexp_str i st c st' :
  return_stack st <> [] -> quoted st = [] -> escaped st = false ->
  inner c = true -> step sexp_str i st c = inr st' ->
  Py_UNICODE_ISSPACE c = false \/ return_stack (settle st) <> [[]] ->
  return_stack (settle st') <> [[]].
Proof.
  intros Hne Hq He Hc Hstep Hlive.
  destruct (step_inner_cases _ _ _ _ _ Hne Hq He Hc Hstep)
    as [[Hcon ->]|[(Hcon & Hs & ->)|[[-> ->]|(-> & ch & nx & bl & Hrs & ->)]]].
  - destruct st as [rs q e t]. unfold settle. simpl.
    replace (empty (t ++ [c])) with false by (now destruct t).
    simpl. destruct rs as [|top below]; [discriminate|]. simpl.
    intros H. inversion H. now destruct top.
  - destruct Hlive as [Hl|Hl]; [congruence|].
    unfold settle at 1. now rewrite settle_terminal.
  - rewrite settle_settled. simpl. intros H. inversion H as [E].
    pose proof (settle_length st) as Hlen. rewrite E in Hlen.
    now destruct (return_stack st).
  - rewrite settle_settled. simpl. intros H. inversion H. now destruct nx.
Qed.

Lemma loop_simple_live sexp_str rest : forall i st st',
  return_stack st <> [] -> quoted st = [] -> escaped st = false ->
  forallb inner rest = true ->
  loop sexp_str i st rest = inr st' ->
  existsb (fun c => negb (Py_UNICODE_ISSPACE c)) rest = true
  \/ return_stack (settle st) <> [[]] ->
  return_stack (settle st') <> [[]].
Proof.
  induction rest as [|c rest IH]; simpl; intros i st st' Hne Hq He Hr H Hl.
  - inversion H; subst. destruct Hl as [Hl|Hl]; [discriminate|assumption].
  - apply andb_true_iff in Hr as [Hc Hr].
    destruct (step sexp_str i st c) as [e|st1] eqn:Hstep; [discriminate|].
    destruct (step_simple _ _ _ _ _ Hne Hq He Hc Hstep)
      as (Hq1 & He1 & Hne1 & _ & _).
    apply (IH _ _ _ Hne1 Hq1 He1 Hr H).
    destruct (Py_UNICODE_ISSPACE c) eqn:Hs; simpl in Hl.
    + destruct Hl as [Hl|Hl]; [left; assumption|right].
      apply (step_simple_live _ _ _ _ _ Hne Hq He Hc Hstep).
      right. assumption.
    + right. apply (step_simple_live _ _ _ _ _ Hne Hq He Hc Hstep).
      left. assumption.
Qed.

(** X12. An input without double quotes and backslashes parses whenever
    its parentheses are balanced (in no prefix more close than open
    parentheses, and in the whole as many of each) and it contains a code
    point that is no whitespace. *)
Theorem X12_balanced_implies_success sexp_str :
  ~ In c_quote sexp_str -> ~ In c_escape sexp_str ->
  (forall pre post,
      sexp_str = pre ++ post ->
      (count_occ Z.eq_dec pre c_rpar <= count_occ Z.eq_dec pre c_lpar)%nat) ->
  count_occ Z.eq_dec sexp_str c_lpar = count_occ Z.eq_dec sexp_str c_rpar ->
  existsb (fun c => negb (Py_UNICODE_ISSPACE c)) sexp_str = true ->
  exists nodes, sexp_parse sexp_str = inr nodes.
Proof.
  intros Hq He Hpre Hall Hne. pose proof (simple_input _ Hq He) as Hs.
  destruct (loop_simple_succeeds sexp_str sexp_str 0 init
              init_stack eq_refl eq_refl Hs) as [st Hl].
  { intros pre post E. specialize (Hpre pre post E). simpl. lia. }
  unfold sexp_parse. rewrite Hl.
  destruct (loop_simple _ _ _ _ _ init_stack eq_refl eq_refl Hs Hl)
    as (_ & _ & Hst & Hlen & _).
  pose proof (loop_simple_live _ _ _ _ _ init_stack eq_refl eq_refl Hs Hl
                (or_introl Hne)) as Hlive.
  rewrite <- settle_length in Hlen. simpl in Hlen.
  destruct (return_stack (settle st)) as [|top [|next below]] eqn:Hrs;
    simpl in Hlen; try lia.
  exists top. apply finish_settle; [assumption|].
  intros ->. now apply Hlive.
Qed.

(** The statement at the input ( a ( ) ) . *)
Lemma X12_balanced_implies_success_witness :
  exists nodes, sexp_parse [40; 97; 40; 41; 41] = inr nodes.
Proof.
  apply X12_balanced_implies_success.
  - simpl. intros H.
    repeat (destruct H as [H|H]; [discriminate|]). exact H.
  - simpl. intros H.
    repeat (destruct H as [H|H]; [discriminate|]). exact H.
  - intros pre post E.
    repeat (destruct pre as [|? pre];
            [simpl; lia | inversion E; subst; clear E;
                          match goal with H : _ = pre ++ post |- _ =>
                            rename H into E end]);
      try (simpl; lia).
  - reflexivity.
  - reflexivity.
Defined.

(** ** Quoted literals and escapes *)

(** X13. A double quote, any code points other than a double quote and a
    backslash, and a double quote parse to one atom with exactly this
    text: parentheses and whitespace between the quotes are kept as
    text. *)
Theorem X13_quoted_literal_verbatim body :
  forallb inner body = true ->
  sexp_parse (c_quote :: body ++ [c_quote])
  = inr [SexpString (c_quote :: body ++ [c_quote])].
Proof.
  intros Hb. unfold sexp_parse, init.
  now rewrite loop_plain_literal.
Qed.

(** The statement at the body ( a, space, b ) . *)
Lemma X13_quoted_literal_verbatim_witness :
  sexp_parse [34; 40; 97; 32; 98; 41; 34]
  = inr [SexpString [34; 40; 97; 32; 98; 41; 34]].
Proof.
  exact (X13_quoted_literal_verbatim [40; 97; 32; 98; 41] eq_refl).
Defined.

(** X14. Inside an open literal, a backslash and a code point [c] extend
    the buffer by one control character when [c] is an escape letter
    (b gives U+0008, f U+000C, t U+0009, n U+000A, r U+000D, v U+000B,
    a U+0007), by [c] alone when [c] is a backslash or an apostrophe, and
    by the backslash and [c] for every other code point, the double quote
    included. *)
Theorem X14_escape_in_literal sexp_str i st c :
  quoted st <> [] -> terminal st = [] -> escaped st = false ->
  loop sexp_str i st [92; c] =
  inr (set_quoted st
         (quoted st ++
          (if c =? 98 then [8]
           else if c =? 102 then [12]
           else if c =? 116 then [9]
           else if c =? 110 then [10]
           else if c =? 114 then [13]
           else if c =? 118 then [11]
           else if c =? 97 then [7]
           else if (c =? 92) || (c =? 39) then [c]
           else [92; c]))).
Proof.
  destruct st as [rs q e t]; simpl; intros Hq Ht He; subst.
  destruct q as [|q0 q]; [congruence|].
  unfold set_quoted; simpl.
  escape_table c.
Qed.

(** The statement after a double quote and x, for the letter t. *)
Lemma X14_escape_in_literal_witness :
  loop [34; 120; 92; 116] 2 (mkState [[]] [34; 120] false []) [92; 116]
  = inr (mkState [[]] [34; 120; 9] false []).
Proof.
  refine (X14_escape_in_literal [34; 120; 92; 116] 2
            (mkState [[]] [34; 120] false []) 116 _ eq_refl eq_refl).
  discriminate.
Defined.

(** X15. With no terminal pending and no literal open, a backslash and a
    code point [c] start a terminal: it holds one control character when
    [c] is an escape letter (b gives U+0008, f U+000C, t U+0009,
    n U+000A, r U+000D, v U+000B, a U+0007), [c] alone when [c] is a
    backslash, an apostrophe or a double quote, and the backslash and [c]
    for every other code point, parentheses and whitespace included. *)
Theorem X15_escape_starts_a_token sexp_str i st c :
  quoted st = [] -> terminal st = [] -> escaped st = false ->
  loop sexp_str i st [92; c] =
  inr (set_terminal st
         (if c =? 98 then [8]
          else if c =? 102 then [12]
          else if c =? 116 then [9]
          else if c =? 110 then [10]
          else if c =? 114 then [13]
          else if c =? 118 then [11]
          else if c =? 97 then [7]
          else if (c =? 92) || (c =? 39) || (c =? 34) then [c]
          else [92; c])).
Proof.
  destruct st as [rs q e t]; simpl; intros Hq Ht He; subst.
  unfold set_terminal; simpl.
  escape_table c.
Qed.

(** The statement at the start of the input, for the open parenthesis. *)
Lemma X15_escape_starts_a_token_witness :
  loop [92; 40] 0 init [92; 40] = inr (mkState [[]] [] false [92; 40]).
Proof.
  exact (X15_escape_starts_a_token [92; 40] 0 init 40
           eq_refl eq_refl eq_refl).
Defined.

(** ** Atoms are never empty *)

Lemma atom_ok_not_empty text : atom_ok text = true -> text <> [].
Proof.
  intros H ->. discriminate H.
Qed.

(** X16. No atom of a tree that [sexp_parse] returns has the empty
    text. *)
Theorem X16_no_empty_atom sexp_str nodes text :
  sexp_parse sexp_str = inr nodes ->
  In text (forest_atoms nodes) -> text <> [].
Proof.
  unfold sexp_parse.
  destruct (loop sexp_str 0 init sexp_str) as [e|st] eqn:Hloop;
    [discriminate|].
  intros Hfin Hin.
  assert (Hok : atoms_ok st = true).
  { eapply loop_atoms_ok; [apply init_wf | reflexivity | eassumption]. }
  pose proof (finish_atoms_ok _ _ _ Hok Hfin) as Hlvl.
  unfold level_ok in Hlvl. rewrite forallb_forall in Hlvl.
  apply atom_ok_not_empty. now apply Hlvl.
Qed.

(** The statement at the empty literal: its atom is the two quotes. *)
Lemma X16_no_empty_atom_witness :
  sexp_parse [34; 34] = inr [SexpString [34; 34]] /\ [34; 34] <> [].
Proof.
  split; [reflexivity|].
  exact (X16_no_empty_atom [34; 34] [SexpString [34; 34]] [34; 34]
           eq_refl (or_introl eq_refl)).
Defined.

(** ** Whitespace at the end *)

(** X17. Whitespace after an input that parses, ending with no literal
    open and the escape flag clear, does not change the tree. *)
Theorem X17_trailing_whitespace sexp_str ws st nodes :
  loop sexp_str 0 init sexp_str = inr st ->
  quoted st = [] -> escaped st = false ->
  forallb Py_UNICODE_ISSPACE ws = true ->
  sexp_parse sexp_str = inr nodes ->
  sexp_parse (sexp_str ++ ws) = inr nodes.
Proof.
  intros Hl Hq He Hws Hp.
  unfold sexp_parse in Hp. rewrite Hl in Hp.
  apply finish_inr in Hp as [Hrs Hne].
  pose proof (settle_clean _ _ Hq He Hrs) as Hs.
  set (w := sexp_str ++ ws). unfold sexp_parse. unfold w at 2.
  rewrite loop_app.
  change (loop w 0 init sexp_str) with (loop w (0 + 0) init sexp_str).
  rewrite (loop_shift sexp_str), Hl.
  destruct ws as [|c ws].
  - simpl. now apply finish_settle.
  - simpl in Hws. apply andb_true_iff in Hws as [Hc Hws].
    cbn [loop]. rewrite step_whitespace_settle, Hs by assumption.
    rewrite loop_whitespace by assumption.
    now apply finish_settle.
Qed.

(** The statement at the input ( a ) followed by a space and a newline. *)
Lemma X17_trailing_whitespace_witness :
  sexp_parse [40; 97; 41; 32; 10] = inr [SexpList [SexpString [97]]].
Proof.
  exact (X17_trailing_whitespace [40; 97; 41] [32; 10]
           (mkState [[SexpList [SexpString [97]]]] [] false [])
           [SexpList [SexpString [97]]]
           eq_refl eq_refl eq_refl eq_refl eq_refl).
Defined.
